(** * Pet-Ranker: the Elo rating and matchmaking engine

    A shallow embedding of [EloEngine] and [ImageManager] from
    [python elo_animal_voter.py], and the properties of the rating update,
    the match log, removal, pairing and persistence; with them the state of
    the image viewer, the drag-and-drop parser and the voting handlers of
    [EloVotingApp].

    Modelling conventions.
    - In the catalog a Python [float] is read as a real number ([R]):
      rounding, overflow and NaN are outside that reading, and what is proved
      of the catalog is stated in terms of the values [update_ratings]
      returns.  [==] on floats is [decide (_ = _)].  The arithmetic of the
      engine itself is modelled a second time on IEEE 754 doubles
      ([Binary64]); what is proved of the formula is proved there.
    - A Python [int] is a [Z], a [str] a [string], [Optional[str]] an
      [option string].
    - A Python [dict] with string keys is an insertion-ordered association
      list; a real dict never holds a key twice ([dict_wf]).
    - [ImageRecord] objects are mutable and reached through the [images]
      dict: an attribute assignment [a.wins += 1] on the object stored under
      [a_id] is an update of the store at [a_id], so that two names for one
      object ([a_id = b_id]) alias as they do in Python.
    - Methods that mutate [self] or raise run in a small state-and-exception
      monad [Py]. *)

From Stdlib Require Import Reals Lra ZArith Ascii String Floats.
From stdpp Require Import base tactics option list strings pretty sorting.

Open Scope Z_scope.
Open Scope R_scope.
Open Scope string_scope.
Open Scope list_scope.

#[global] Instance R_eq_dec : EqDecision R := Req_dec_T.
#[global] Instance Rle_decision (x y : R) : Decision (x <= y) := Rle_dec x y.

(** ** Configuration / constants *)

Definition DEFAULT_ELO : R := 1000.
Definition K_FACTOR : R := 32.
Definition MATCH_HISTORY_LIMIT : Z := 5000.

(** ** Data classes *)

Record ImageRecord := {
  id : string;
  path : string;
  name : string;
  rating : R;
  wins : Z;
  losses : Z;
  draws : Z;
  matches : Z;
  added_at : string
}.

Record MatchRecord := {
  timestamp : string;
  winner_id : option string;
  loser_id : option string;
  draw : bool;
  winner_rating_before : R;
  loser_rating_before : R;
  winner_rating_after : R;
  loser_rating_after : R
}.

(** Attribute assignments [rec.f = v] on an [ImageRecord]. *)
Definition set_rating (v : R) (r : ImageRecord) : ImageRecord :=
  {| id := id r; path := path r; name := name r; rating := v;
     wins := wins r; losses := losses r; draws := draws r;
     matches := matches r; added_at := added_at r |}.
Definition set_wins (v : Z) (r : ImageRecord) : ImageRecord :=
  {| id := id r; path := path r; name := name r; rating := rating r;
     wins := v; losses := losses r; draws := draws r;
     matches := matches r; added_at := added_at r |}.
Definition set_losses (v : Z) (r : ImageRecord) : ImageRecord :=
  {| id := id r; path := path r; name := name r; rating := rating r;
     wins := wins r; losses := v; draws := draws r;
     matches := matches r; added_at := added_at r |}.
Definition set_draws (v : Z) (r : ImageRecord) : ImageRecord :=
  {| id := id r; path := path r; name := name r; rating := rating r;
     wins := wins r; losses := losses r; draws := v;
     matches := matches r; added_at := added_at r |}.
Definition set_matches (v : Z) (r : ImageRecord) : ImageRecord :=
  {| id := id r; path := path r; name := name r; rating := rating r;
     wins := wins r; losses := losses r; draws := draws r;
     matches := v; added_at := added_at r |}.

(** ** Elo engine (supports draws)

    The engine with its float arithmetic read as real arithmetic: [10 ** x]
    is the exact power, which never overflows and is never zero.  The
    catalog below calls this engine, and what is proved of the catalog holds
    for whatever pair [update_ratings] returns. *)

Module EloEngine.

Record t := { k : R }.

(** [EloEngine()] : the default sensitivity is [K_FACTOR]. *)
Definition init : t := {| k := K_FACTOR |}.

(** [10 ** x] *)
Definition pow10 (x : R) : R := Rpower 10 x.

Definition expected_score (r_a r_b : R) : R :=
  let qa := pow10 (r_a / 400) in
  let qb := pow10 (r_b / 400) in
  if decide (qa + qb = 0) then 0.5 else qa / (qa + qb).

Definition update_ratings (self : t) (ra rb result : R) : R * R :=
  let ea := expected_score ra rb in
  let eb := expected_score rb ra in
  let new_ra := ra + k self * (result - ea) in
  let new_rb := rb + k self * ((1 - result) - eb) in
  (new_ra, new_rb).

End EloEngine.

(** ** The Elo engine on binary64

    [EloEngine] reads the engine's float arithmetic as real arithmetic.
    Here the same four lines run on IEEE 754 doubles, as CPython runs them:
    [+], [-], [*], [/] and [==] are the kernel's binary64 operations, and
    [10 ** y] is CPython's float power, which hands the work to the C
    library's [pow] and raises [OverflowError] when the result is out of
    range.  The C library is not part of the program: its [pow] is a
    parameter. *)

Inductive ArithmeticError := OverflowError.

Module Binary64.

Record t := { k : float }.

(** [EloEngine()]: [self.k = float(K_FACTOR)]. *)
Definition init : t := {| k := 32 |}.

Section libm.
(** C's [pow(x, y)]. *)
Variable pow : float -> float -> float.

(** [10 ** y] for a float [y].  CPython settles the special exponents
    itself (zero, NaN, the infinities); otherwise it calls [pow(10.0, y)]
    and raises [OverflowError] when the result is infinite.  A result that
    underflows to zero is returned as it is. *)
Definition pow10 (y : float) : ArithmeticError + float :=
  if (y =? 0)%float then inr 1%float
  else if is_nan y then inr y
  else if is_infinity y then
    inr (if (0 <? y)%float then infinity else 0%float)
  else
    let ix := pow 10%float y in
    if is_infinity ix then inl OverflowError else inr ix.

Definition expected_score (r_a r_b : float) : ArithmeticError + float :=
  match pow10 (r_a / 400) with
  | inl e => inl e
  | inr qa =>
      match pow10 (r_b / 400) with
      | inl e => inl e
      | inr qb =>
          if (qa + qb =? 0)%float then inr 0.5%float
          else inr (qa / (qa + qb))%float
      end
  end.

Definition update_ratings (self : t) (ra rb result : float)
  : ArithmeticError + float * float :=
  match expected_score ra rb with
  | inl e => inl e
  | inr ea =>
      match expected_score rb ra with
      | inl e => inl e
      | inr eb =>
          let new_ra := (ra + k self * (result - ea))%float in
          let new_rb := (rb + k self * ((1 - result) - eb))%float in
          inr (new_ra, new_rb)
      end
  end.

End libm.

End Binary64.

(** The largest double, [(2 - 2^-52) * 2^1023], as a real number. *)
Definition DBL_MAX : R := (2 ^ 53 - 1) * 2 ^ 971.

(** The smallest positive double, [2^-1074], as a real number. *)
Definition DBL_TRUE_MIN : R := / 2 ^ 1074.

(** The expected score of the formula for two powers [q], [q']. *)
Definition score_of (q q' : float) : float :=
  if (q + q' =? 0)%float then 0.5%float else (q / (q + q'))%float.

(** ** Python dicts with string keys, in insertion order *)

Abbreviation dict V := (list (string * V)) (only parsing).

Section dict.
Context {V : Type}.

(** [d.get(key)] / [d[key]] *)
Fixpoint dict_get (key : string) (d : dict V) : option V :=
  match d with
  | [] => None
  | (k', v) :: d' => if decide (k' = key) then Some v else dict_get key d'
  end.

(** [key in d] *)
Definition dict_in (key : string) (d : dict V) : bool :=
  match dict_get key d with Some _ => true | None => false end.

(** [d[key] = v] : an existing key keeps its position, a new one goes last. *)
Fixpoint dict_set (key : string) (v : V) (d : dict V) : dict V :=
  match d with
  | [] => [(key, v)]
  | (k', v') :: d' =>
      if decide (k' = key) then (k', v) :: d' else (k', v') :: dict_set key v d'
  end.

(** [del d[key]] *)
Definition dict_del (key : string) (d : dict V) : dict V :=
  filter (fun kv => kv.1 <> key) d.

(** [list(d.keys())], [d.values()] *)
Definition dict_keys (d : dict V) : list string := d.*1.
Definition dict_values (d : dict V) : list V := d.*2.

(** Mutation of the object stored under [key] (the dict itself is not
    assigned to). *)
Definition dict_mutate (key : string) (f : V -> V) (d : dict V) : dict V :=
  (fun kv => if decide (kv.1 = key) then (kv.1, f kv.2) else kv) <$> d.

(** No key occurs twice. *)
Definition dict_wf (d : dict V) : Prop := NoDup (dict_keys d).

End dict.

(** ** Sorting by a float key

    [list.sort(key=...)] and [sorted(..., key=..., reverse=True)] are stable;
    the result of a stable sort is unique, here it is computed by insertion. *)

Section sorting.
Context {A : Type} (key : A -> R).

Fixpoint insert_asc (x : A) (l : list A) : list A :=
  match l with
  | [] => [x]
  | y :: l' => if decide (key x <= key y) then x :: l else y :: insert_asc x l'
  end.

Definition sort_asc (l : list A) : list A := foldr insert_asc [] l.

Fixpoint insert_desc (x : A) (l : list A) : list A :=
  match l with
  | [] => [x]
  | y :: l' => if decide (key y <= key x) then x :: l else y :: insert_desc x l'
  end.

Definition sort_desc (l : list A) : list A := foldr insert_desc [] l.

(** The order of the keys. *)
Definition key_le (x y : A) : Prop := key x <= key y.

End sorting.

(** ** Exceptions and the state-and-exception monad *)

Inductive exn :=
| KeyError (msg : string)
| TypeError
| AttributeError
| FileNotFoundError.

Definition Py (S A : Type) : Type := S -> (exn + A) * S.

#[global] Instance Py_ret {S} : MRet (Py S) := fun A x s => (inr x, s).
#[global] Instance Py_bind {S} : MBind (Py S) := fun A B f m s =>
  match m s with
  | (inr x, s') => f x s'
  | (inl e, s') => (inl e, s')
  end.

Definition raise {S A} (e : exn) : Py S A := fun s => (inl e, s).
Definition gets {S A} (f : S -> A) : Py S A := fun s => (inr (f s), s).
Definition modify {S} (f : S -> S) : Py S unit := fun s => (inr tt, f s).

(** A [for] loop over a list. *)
Fixpoint for_each {S A} (l : list A) (body : A -> Py S unit) : Py S unit :=
  match l with
  | [] => mret tt
  | x :: l' => body x;; for_each l' body
  end.

(** A list comprehension whose element expression may raise. *)
Fixpoint map_raise {A B} (f : A -> exn + B) (l : list A) : exn + list B :=
  match l with
  | [] => inr []
  | x :: l' =>
      match f x with
      | inl e => inl e
      | inr y => match map_raise f l' with
                 | inl e => inl e
                 | inr ys => inr (y :: ys)
                 end
      end
  end.

Definition lift {S A} (r : exn + A) : Py S A := fun s => (r, s).

(** ** Image manager

    The thumbnail and display caches hold Tk images only and are left out of
    the state. *)

Module ImageManager.

Record t := {
  images : dict ImageRecord;
  history : list MatchRecord
}.

(** [ImageManager()] *)
Definition init : t := {| images := []; history := [] |}.

(** [self.elo = EloEngine()] is set once and never reassigned. *)
Definition elo : EloEngine.t := EloEngine.init.

Definition set_images (v : dict ImageRecord) (self : t) : t :=
  {| images := v; history := history self |}.
Definition set_history (v : list MatchRecord) (self : t) : t :=
  {| images := images self; history := v |}.

(** [self.images[key].f] and [self.images[key].f = ...] *)
Definition getattr {A} (key : string) (f : ImageRecord -> A) : Py t A :=
  imgs ← gets images;
  match dict_get key imgs with
  | Some r => mret (f r)
  | None => raise (KeyError key)
  end.
Definition setattr (key : string) (f : ImageRecord -> ImageRecord) : Py t unit :=
  modify (fun self => set_images (dict_mutate key f (images self)) self).

Section os.
(** [os.path.abspath], [os.path.basename] and the builtin [hash] on
    strings. *)
Variables (abspath basename : string -> string) (hash : string -> Z).

(** [_make_id] *)
Definition _make_id (path : string) : string :=
  pretty (Z.abs (hash (abspath path))).

(** [path_exists] is the answer of [os.path.exists(path)], [utcnow] the
    clock reading taken by the [added_at] default. *)
Definition add_image (path : string) (path_exists : bool) (utcnow : string)
  : Py t (option ImageRecord) :=
  if negb path_exists then mret None else
  let uid := _make_id path in
  imgs ← gets images;
  match dict_get uid imgs with
  | Some rec => mret (Some rec)
  | None =>
      let name := basename path in
      let rec := {| id := uid; path := abspath path; name := name;
                    rating := DEFAULT_ELO; wins := 0; losses := 0;
                    draws := 0; matches := 0; added_at := utcnow |} in
      modify (fun self => set_images (dict_set uid rec (images self)) self);;
      mret (Some rec)
  end.

End os.

Definition remove_image (image_id : string) : Py t unit :=
  imgs ← gets images;
  if dict_in image_id imgs then
    modify (fun self => set_images (dict_del image_id (images self)) self);;
    modify (fun self =>
      set_history
        (filter (fun h => winner_id h <> Some image_id
                          /\ loser_id h <> Some image_id) (history self))
        self)
  else mret tt.

(** [rec.wins += 1] and the like. *)
Definition incr_wins (r : ImageRecord) := set_wins (wins r + 1) r.
Definition incr_losses (r : ImageRecord) := set_losses (losses r + 1) r.
Definition incr_draws (r : ImageRecord) := set_draws (draws r + 1) r.
Definition incr_matches (r : ImageRecord) := set_matches (matches r + 1) r.

(** The three-way branch of [record_match] that applies the statistics and
    names winner and loser. *)
Definition apply_stats (a_id b_id : string) (result : R)
  : Py t (option string * option string) :=
  if decide (result = 1) then
    setattr a_id incr_wins;;
    setattr b_id incr_losses;;
    mret (Some a_id, Some b_id)
  else if decide (result = 0) then
    setattr b_id incr_wins;;
    setattr a_id incr_losses;;
    mret (Some b_id, Some a_id)
  else
    setattr a_id incr_draws;;
    setattr b_id incr_draws;;
    mret (None, None).

(** The [MatchRecord(...)] expression of [record_match]; [utcnow] is the
    clock reading stored as the entry's timestamp. *)
Definition new_record (a_id b_id : string) (result : R) (utcnow : string)
    (w_id l_id : option string) (before_a before_b new_a new_b : R)
  : MatchRecord :=
  {| timestamp := utcnow;
     winner_id := w_id;
     loser_id := l_id;
     draw := bool_decide (result = 0.5);
     winner_rating_before :=
       if decide (w_id = Some a_id) then before_a
       else if decide (w_id = Some b_id) then before_b else before_a;
     loser_rating_before :=
       if decide (l_id = Some b_id) then before_b
       else if decide (l_id = Some a_id) then before_a else before_b;
     winner_rating_after :=
       if decide (w_id = Some a_id) then new_a
       else if decide (w_id = Some b_id) then new_b else new_a;
     loser_rating_after :=
       if decide (l_id = Some b_id) then new_b
       else if decide (l_id = Some a_id) then new_a else new_b |}.

Definition record_match (a_id b_id : string) (result : R) (utcnow : string)
  : Py t unit :=
  imgs ← gets images;
  if negb (dict_in a_id imgs) || negb (dict_in b_id imgs)
  then raise (KeyError "Image id not found") else
  before_a ← getattr a_id rating;
  before_b ← getattr b_id rating;
  let new := EloEngine.update_ratings elo before_a before_b result in
  let new_a := new.1 in
  let new_b := new.2 in
  ids ← apply_stats a_id b_id result;
  setattr a_id incr_matches;;
  setattr b_id incr_matches;;
  setattr a_id (set_rating new_a);;
  setattr b_id (set_rating new_b);;
  let rec := new_record a_id b_id result utcnow ids.1 ids.2
                        before_a before_b new_a new_b in
  modify (fun self => set_history (rec :: history self) self);;
  h ← gets history;
  if decide (Z.of_nat (length h) > MATCH_HISTORY_LIMIT)%Z
  then modify (set_history (take (Z.to_nat MATCH_HISTORY_LIMIT) h))
  else mret tt.

(** [random.sample(ids, 2)] returns the elements at two distinct positions
    [i], [j] of [ids]; the positions are the random source's draws. *)
Definition get_random_pair (i j : nat) (self : t)
  : option (ImageRecord * ImageRecord) :=
  let ids := dict_keys (images self) in
  if decide (length ids < 2)%nat then None else
  a ← ids !! i;
  b ← ids !! j;
  ra ← dict_get a (images self);
  rb ← dict_get b (images self);
  Some (ra, rb).

(** [[(abs(a.rating - self.images[i].rating), i) for i in ids if i != a_id]] *)
Definition candidates (self : t) (a_id : string) (a : ImageRecord)
  : list (R * string) :=
  omap (fun i =>
          if decide (i <> a_id) then
            r ← dict_get i (images self);
            Some (Rabs (rating a - rating r), i)
          else None)
       (dict_keys (images self)).

(** [candidates.sort(key=lambda x: x[0])] then [candidates[:top_k]] *)
Definition closest (self : t) (a_id : string) (a : ImageRecord)
  : list (R * string) :=
  let cs := sort_asc fst (candidates self a_id a) in
  let top_k := Nat.min 6 (length cs) in
  take top_k cs.

(** [random.choice(seq)] is [seq[i]] for the random source's draw [i] below
    [len(seq)]: [i] is the draw for [a_id], [j] the draw for [chosen]. *)
Definition get_smart_pair (i j : nat) (self : t)
  : option (ImageRecord * ImageRecord) :=
  let ids := dict_keys (images self) in
  if decide (length ids < 2)%nat then None else
  a_id ← ids !! i;
  a ← dict_get a_id (images self);
  chosen ← closest self a_id a !! j;
  let b_id := chosen.2 in
  b ← dict_get b_id (images self);
  Some (a, b).

Definition ranking (self : t) : list ImageRecord :=
  sort_desc rating (dict_values (images self)).

End ImageManager.

(** The body of the reset loop: [rec.rating = DEFAULT_ELO] and
    [rec.wins = rec.losses = rec.draws = rec.matches = 0]. *)
Definition reset_record (rec : ImageRecord) : ImageRecord :=
  set_matches 0 (set_draws 0 (set_losses 0 (set_wins 0
    (set_rating DEFAULT_ELO rec)))).

Module EloVotingApp.

(** [ui_reset_ratings], on the manager [self.im]; [confirmed] is the answer
    to the confirmation dialog. *)
Definition ui_reset_ratings (confirmed : bool) : Py ImageManager.t unit :=
  imgs ← gets ImageManager.images;
  match imgs with
  | [] => mret tt
  | _ =>
      if negb confirmed then mret tt else
      modify (fun im =>
        ImageManager.set_images
          (prod_map (fun key => key) reset_record
           <$> ImageManager.images im) im);;
      modify (ImageManager.set_history [])
  end.

End EloVotingApp.

(** ** Persistence

    [json.dump] and [json.load] are the library's; the model starts from the
    value handed to [json.dump] and from the value returned by [json.load]. *)

#[local] Unset Elimination Schemes.
Inductive json :=
| JNull
| JBool (b : bool)
| JInt (z : Z)
| JFloat (r : R)
| JStr (s : string)
| JList (l : list json)
| JDict (d : list (string * json)).
#[local] Set Elimination Schemes.

Definition json_of_optional (o : option string) : json :=
  match o with Some s => JStr s | None => JNull end.

(** [asdict(self)] for the two data classes, in field order. *)
Definition ImageRecord_to_dict (r : ImageRecord) : dict json :=
  [("id", JStr (id r)); ("path", JStr (path r)); ("name", JStr (name r));
   ("rating", JFloat (rating r)); ("wins", JInt (wins r));
   ("losses", JInt (losses r)); ("draws", JInt (draws r));
   ("matches", JInt (matches r)); ("added_at", JStr (added_at r))].

Definition MatchRecord_to_dict (h : MatchRecord) : dict json :=
  [("timestamp", JStr (timestamp h));
   ("winner_id", json_of_optional (winner_id h));
   ("loser_id", json_of_optional (loser_id h));
   ("draw", JBool (draw h));
   ("winner_rating_before", JFloat (winner_rating_before h));
   ("loser_rating_before", JFloat (loser_rating_before h));
   ("winner_rating_after", JFloat (winner_rating_after h));
   ("loser_rating_after", JFloat (loser_rating_after h))].

(** [save_to_file]: the document handed to [json.dump]. *)
Definition save_to_file (self : ImageManager.t) : json :=
  let imgs := ImageManager.images self in
  JDict
    [("images",
      JDict (foldl (fun acc iid =>
                      match dict_get iid imgs with
                      | Some r => dict_set iid (JDict (ImageRecord_to_dict r)) acc
                      | None => acc
                      end) [] (dict_keys imgs)));
     ("history",
      JList ((fun h => JDict (MatchRecord_to_dict h))
             <$> ImageManager.history self))].

(** The generated [__init__] of a data class stores its arguments without
    looking at their types: an instance built from a loaded document holds
    whatever JSON values the document gave. *)
Record ImageRecordObj := {
  o_id : json;
  o_path : json;
  o_name : json;
  o_rating : json;
  o_wins : json;
  o_losses : json;
  o_draws : json;
  o_matches : json;
  o_added_at : json
}.

Record MatchRecordObj := {
  o_timestamp : json;
  o_winner_id : json;
  o_loser_id : json;
  o_draw : json;
  o_winner_rating_before : json;
  o_loser_rating_before : json;
  o_winner_rating_after : json;
  o_loser_rating_after : json
}.

Definition ImageRecord_fields : list string :=
  ["id"; "path"; "name"; "rating"; "wins"; "losses"; "draws"; "matches";
   "added_at"].

Definition MatchRecord_fields : list string :=
  ["timestamp"; "winner_id"; "loser_id"; "draw"; "winner_rating_before";
   "loser_rating_before"; "winner_rating_after"; "loser_rating_after"].

(** A keyword that is not a field of the class. *)
Definition unexpected_keyword (fields : list string) (kw : dict json) : bool :=
  existsb (fun key => bool_decide (key ∉ fields)) (dict_keys kw).

(** [ImageRecord] called with the items of [rec] as keywords: [TypeError] when [rec] is not a mapping, names an
    unknown field or omits a field without default. *)
Definition ImageRecord_new (rec : json) (utcnow : string)
  : exn + ImageRecordObj :=
  match rec with
  | JDict kw =>
      if unexpected_keyword ImageRecord_fields kw then inl TypeError else
      match dict_get "id" kw, dict_get "path" kw, dict_get "name" kw with
      | Some i, Some p, Some n =>
          inr {| o_id := i; o_path := p; o_name := n;
                 o_rating := default (JFloat DEFAULT_ELO) (dict_get "rating" kw);
                 o_wins := default (JInt 0) (dict_get "wins" kw);
                 o_losses := default (JInt 0) (dict_get "losses" kw);
                 o_draws := default (JInt 0) (dict_get "draws" kw);
                 o_matches := default (JInt 0) (dict_get "matches" kw);
                 o_added_at := default (JStr utcnow) (dict_get "added_at" kw) |}
      | _, _, _ => inl TypeError
      end
  | _ => inl TypeError
  end.

(** [MatchRecord] called with the items of [h] as keywords: no field has a default. *)
Definition MatchRecord_new (h : json) : exn + MatchRecordObj :=
  match h with
  | JDict kw =>
      if unexpected_keyword MatchRecord_fields kw then inl TypeError else
      match dict_get "timestamp" kw, dict_get "winner_id" kw,
            dict_get "loser_id" kw, dict_get "draw" kw,
            dict_get "winner_rating_before" kw,
            dict_get "loser_rating_before" kw,
            dict_get "winner_rating_after" kw,
            dict_get "loser_rating_after" kw with
      | Some t, Some w, Some l, Some d, Some wb, Some lb, Some wa, Some la =>
          inr {| o_timestamp := t; o_winner_id := w; o_loser_id := l;
                 o_draw := d; o_winner_rating_before := wb;
                 o_loser_rating_before := lb; o_winner_rating_after := wa;
                 o_loser_rating_after := la |}
      | _, _, _, _, _, _, _, _ => inl TypeError
      end
  | _ => inl TypeError
  end.

(** The manager's two attributes as [load_from_file] leaves them. *)
Record ManagerObj := {
  obj_images : dict ImageRecordObj;
  obj_history : list MatchRecordObj
}.

Definition set_obj_images (v : dict ImageRecordObj) (self : ManagerObj)
  : ManagerObj := {| obj_images := v; obj_history := obj_history self |}.
Definition set_obj_history (v : list MatchRecordObj) (self : ManagerObj)
  : ManagerObj := {| obj_images := obj_images self; obj_history := v |}.

(** [data.get(key, default)]: only a dict has [get]. *)
Definition json_get (key : string) (dflt : json) (data : json) : exn + json :=
  match data with
  | JDict d => inr (default dflt (dict_get key d))
  | _ => inl AttributeError
  end.

(** [v.items()] *)
Definition json_items (v : json) : exn + dict json :=
  match v with
  | JDict d => inr d
  | _ => inl AttributeError
  end.

(** [for h in v]: a list yields its elements, a dict its keys, a string its
    characters; nothing else is iterable. *)
Definition json_iter (v : json) : exn + list json :=
  match v with
  | JList l => inr l
  | JDict d => inr (JStr <$> dict_keys d)
  | JStr s => inr ((fun c => JStr (String c EmptyString)) <$> String.list_ascii_of_string s)
  | _ => inl TypeError
  end.

(** [load_from_file]: [file] is [None] when the file does not exist and
    otherwise the value returned by [json.load]; [utcnow] is the clock
    reading used by the [added_at] default. *)
Definition load_from_file (file : option json) (utcnow : string)
  : Py ManagerObj unit :=
  match file with
  | None => raise FileNotFoundError
  | Some data =>
      modify (set_obj_images []);;
      section ← lift (json_get "images" (JDict []) data);
      items ← lift (json_items section);
      for_each items (fun item =>
        o ← lift (ImageRecord_new item.2 utcnow);
        modify (fun self =>
          set_obj_images (dict_set item.1 o (obj_images self)) self));;
      hs ← lift (json_get "history" (JList []) data);
      hs ← lift (json_iter hs);
      objs ← lift (map_raise MatchRecord_new hs);
      modify (set_obj_history objs)
  end.

(** The dict built by the image loop of [load_from_file] on top of [acc]:
    the dict when every record is accepted, the exception and the dict built
    so far otherwise. *)
Fixpoint build_images (utcnow : string) (items : dict json)
    (acc : dict ImageRecordObj) : exn * dict ImageRecordObj + dict ImageRecordObj :=
  match items with
  | [] => inr acc
  | item :: items' =>
      match ImageRecord_new item.2 utcnow with
      | inl e => inl (e, acc)
      | inr o => build_images utcnow items' (dict_set item.1 o acc)
      end
  end.

(** A well-typed manager as objects, and the typed reading of objects. *)
Definition ImageRecord_obj (r : ImageRecord) : ImageRecordObj :=
  {| o_id := JStr (id r); o_path := JStr (path r); o_name := JStr (name r);
     o_rating := JFloat (rating r); o_wins := JInt (wins r);
     o_losses := JInt (losses r); o_draws := JInt (draws r);
     o_matches := JInt (matches r); o_added_at := JStr (added_at r) |}.

Definition MatchRecord_obj (h : MatchRecord) : MatchRecordObj :=
  {| o_timestamp := JStr (timestamp h);
     o_winner_id := json_of_optional (winner_id h);
     o_loser_id := json_of_optional (loser_id h);
     o_draw := JBool (draw h);
     o_winner_rating_before := JFloat (winner_rating_before h);
     o_loser_rating_before := JFloat (loser_rating_before h);
     o_winner_rating_after := JFloat (winner_rating_after h);
     o_loser_rating_after := JFloat (loser_rating_after h) |}.

Definition manager_obj (self : ImageManager.t) : ManagerObj :=
  {| obj_images := prod_map (fun key => key) ImageRecord_obj
                   <$> ImageManager.images self;
     obj_history := MatchRecord_obj <$> ImageManager.history self |}.

Definition as_str (v : json) : option string :=
  match v with JStr s => Some s | _ => None end.
Definition as_float (v : json) : option R :=
  match v with JFloat r => Some r | _ => None end.
Definition as_int (v : json) : option Z :=
  match v with JInt z => Some z | _ => None end.
Definition as_bool (v : json) : option bool :=
  match v with JBool b => Some b | _ => None end.
Definition as_optional_str (v : json) : option (option string) :=
  match v with JStr s => Some (Some s) | JNull => Some None | _ => None end.

Definition ImageRecord_typed (o : ImageRecordObj) : option ImageRecord :=
  i ← as_str (o_id o); p ← as_str (o_path o); n ← as_str (o_name o);
  r ← as_float (o_rating o); w ← as_int (o_wins o); l ← as_int (o_losses o);
  d ← as_int (o_draws o); m ← as_int (o_matches o); a ← as_str (o_added_at o);
  Some {| id := i; path := p; name := n; rating := r; wins := w; losses := l;
          draws := d; matches := m; added_at := a |}.

Definition MatchRecord_typed (o : MatchRecordObj) : option MatchRecord :=
  t ← as_str (o_timestamp o); w ← as_optional_str (o_winner_id o);
  l ← as_optional_str (o_loser_id o); d ← as_bool (o_draw o);
  wb ← as_float (o_winner_rating_before o);
  lb ← as_float (o_loser_rating_before o);
  wa ← as_float (o_winner_rating_after o);
  la ← as_float (o_loser_rating_after o);
  Some {| timestamp := t; winner_id := w; loser_id := l; draw := d;
          winner_rating_before := wb; loser_rating_before := lb;
          winner_rating_after := wa; loser_rating_after := la |}.

Definition manager_typed (m : ManagerObj) : option ImageManager.t :=
  imgs ← mapM (fun kv => r ← ImageRecord_typed kv.2; Some (kv.1, r))
              (obj_images m);
  hist ← mapM MatchRecord_typed (obj_history m);
  Some {| ImageManager.images := imgs; ImageManager.history := hist |}.

#[global] Instance Rlt_decision (x y : R) : Decision (x < y) := Rlt_dec x y.

(** ** Image viewer with zoom and rotate

    The viewer's state without its Tk widgets and PIL images;
    [_render_image] only draws. *)

Module ImageViewer.

Record t := {
  zoom : R;
  angle : Z
}.

(** [__init__]: [self.zoom = 1.0], [self.angle = 0]. *)
Definition init : t := {| zoom := 1; angle := 0 |}.

Definition _zoom (factor : R) (self : t) : t :=
  let z := zoom self * factor in
  (* clamp zoom *)
  let z := if decide (z < 0.1) then 0.1 else z in
  let z := if decide (10 < z) then 10 else z in
  {| zoom := z; angle := angle self |}.

Definition _rotate (deg : Z) (self : t) : t :=
  {| zoom := zoom self; angle := ((angle self + deg) mod 360)%Z |}.

Definition _reset (self : t) : t := {| zoom := 1; angle := 0 |}.

(** A wheel event: its [delta] attribute when it has one, and its [num]. *)
Record wheel_event := {
  delta : option Z;
  num : option Z
}.

Definition _on_wheel (event : wheel_event) (self : t) : t :=
  (* Normalize across platforms *)
  let d := match delta event with
           | Some d => d
           | None => if decide (num event = Some 4%Z) then 120%Z
                     else if decide (num event = Some 5%Z) then (-120)%Z
                     else 0%Z
           end in
  if decide (d > 0)%Z then _zoom 1.1 self else _zoom (1 / 1.1) self.

(** What the user can do in a viewer window. *)
Inductive action :=
| Zoom (factor : R)
| Rotate (deg : Z)
| Reset
| Wheel (event : wheel_event).

Definition act (self : t) (a : action) : t :=
  match a with
  | Zoom factor => _zoom factor self
  | Rotate deg => _rotate deg self
  | Reset => _reset self
  | Wheel event => _on_wheel event self
  end.

End ImageViewer.

(** ** Drag and drop

    The loop of [_on_dnd] that splits [event.data] into file names: names
    are separated by spaces, names with spaces are enclosed in braces. *)

Module Dnd.

(** [files], [cur] and [in_brace]. *)
Definition state : Type := list string * string * bool.

Definition step (st : state) (ch : Ascii.ascii) : state :=
  let '(files, cur, in_brace) := st in
  if decide (ch = "{"%char) then (files, "", true)
  else if decide (ch = "}"%char) then (files ++ [cur], "", false)
  else if bool_decide (ch = " "%char) && negb in_brace then
    if decide (cur <> "") then (files ++ [cur], "", in_brace)
    else (files, cur, in_brace)
  else (files, cur +:+ String ch "", in_brace).

(** [for ch in data: ...] *)
Fixpoint loop (data : string) (st : state) : state :=
  match data with
  | EmptyString => st
  | String ch data' => loop data' (step st ch)
  end.

(** The list [files] after the loop and the trailing [if cur:]. *)
Definition parse (data : string) : list string :=
  let '(files, cur, _) := loop data ([], "", false) in
  if decide (cur <> "") then files ++ [cur] else files.

(** The names as a drop delivers them, each braced or plain, joined by
    spaces. *)
Definition braced (name : string) : string := "{" +:+ name +:+ "}".

Fixpoint join (tokens : list string) : string :=
  match tokens with
  | [] => ""
  | [t] => t
  | t :: tokens' => t +:+ " " +:+ join tokens'
  end.

Fixpoint has_char (ch : Ascii.ascii) (s : string) : bool :=
  match s with
  | EmptyString => false
  | String c s' => bool_decide (c = ch) || has_char ch s'
  end.

(** A name that can stand in braces, and one that can stand plain. *)
Definition braceable (name : string) : Prop :=
  has_char "{" name = false /\ has_char "}" name = false.
Definition plain (name : string) : Prop :=
  braceable name /\ has_char " " name = false /\ name <> "".

(** What a drop delivers: braced or plain names ([true] for braced). *)
Definition token (item : bool * string) : string :=
  if item.1 then braced item.2 else item.2.
Definition droppable (item : bool * string) : Prop :=
  if item.1 then braceable item.2 else plain item.2.

End Dnd.

(** ** Voting

    The part of [EloVotingApp] that chooses the pair on display and records
    votes: the manager, [current_pair] and [pair_mode_smart].  Labels,
    caches and message boxes are Tk's. *)

Module Voting.

Record t := {
  im : ImageManager.t;
  current_pair : option (ImageRecord * ImageRecord);
  pair_mode_smart : bool
}.

Definition set_current_pair (v : option (ImageRecord * ImageRecord))
    (self : t) : t :=
  {| im := im self; current_pair := v; pair_mode_smart := pair_mode_smart self |}.
Definition set_im (v : ImageManager.t) (self : t) : t :=
  {| im := v; current_pair := current_pair self;
     pair_mode_smart := pair_mode_smart self |}.

(** A method of the manager, called on [self.im]. *)
Definition on_im {A} (m : Py ImageManager.t A) : Py t A := fun self =>
  let '(r, im') := m (im self) in (r, set_im im' self).

(** [ui_next_pair]: [i], [j] are the draws of the pairing function and
    [keep] tells whether [random.random() < 0.5]. *)
Definition ui_next_pair (i j : nat) (keep : bool) (self : t) : t :=
  if decide (length (ImageManager.images (im self)) < 2)%nat
  then set_current_pair None self
  else
    let pair := if pair_mode_smart self
                then ImageManager.get_smart_pair i j (im self)
                else ImageManager.get_random_pair i j (im self) in
    match pair with
    | None => set_current_pair None self
    | Some (a, b) =>
        (* randomize sides sometimes *)
        set_current_pair (Some (if keep then (a, b) else (b, a))) self
    end.

Definition ui_swap_pair (self : t) : t :=
  match current_pair self with
  | Some (a, b) => set_current_pair (Some (b, a)) self
  | None => self
  end.

(** [_vote_side]; [utcnow] is the clock reading of the recorded match and
    [i], [j], [keep] are the draws of the [ui_next_pair] that follows. *)
Definition _vote_side (side vote_type : string) (utcnow : string)
    (i j : nat) (keep : bool) : Py t unit :=
  pair ← gets current_pair;
  match pair with
  | None => mret tt
  | Some (left_, right_) =>
      let '(a, b) := if decide (side = "left") then (left_, right_)
                     else (right_, left_) in
      if decide (vote_type = "win") then
        (* A wins *)
        on_im (ImageManager.record_match (id a) (id b) 1 utcnow);;
        modify (ui_next_pair i j keep)
      else if decide (vote_type = "dislike") then
        (* A disliked => B wins (record as B win) *)
        on_im (ImageManager.record_match (id b) (id a) 1 utcnow);;
        modify (ui_next_pair i j keep)
      else if decide (vote_type = "neutral") then
        (* draw *)
        on_im (ImageManager.record_match (id a) (id b) 0.5 utcnow);;
        modify (ui_next_pair i j keep)
      else mret tt
  end.

End Voting.

(** ** Sessions: sequences of core operations *)

Section session.
Variables (abspath basename : string -> string) (hash : string -> Z).

Inductive op :=
| Register (path : string) (path_exists : bool) (utcnow : string)
| RecordMatch (a_id b_id : string) (result : R) (utcnow : string)
| Remove (image_id : string)
| ResetAll (confirmed : bool).

Definition perform (o : op) : Py ImageManager.t unit :=
  match o with
  | Register p e now =>
      ImageManager.add_image abspath basename hash p e now;; mret tt
  | RecordMatch a b result now => ImageManager.record_match a b result now
  | Remove i => ImageManager.remove_image i
  | ResetAll c => EloVotingApp.ui_reset_ratings c
  end.

(** The state after an operation, whether it returned or raised. *)
Definition after (s : ImageManager.t) (o : op) : ImageManager.t :=
  (perform o s).2.

Definition run (ops : list op) : ImageManager.t :=
  foldl after ImageManager.init ops.

End session.

(** ** Invariants *)

(** The counters of a record are consistent. *)
Definition counters_ok (r : ImageRecord) : Prop :=
  (matches r = wins r + losses r + draws r
   /\ 0 <= wins r /\ 0 <= losses r /\ 0 <= draws r /\ 0 <= matches r)%Z.

(** Every record is stored under its own id. *)
Definition keyed_by_id (d : dict ImageRecord) : Prop :=
  Forall (fun kv => id kv.2 = kv.1) d.

(** The four counters of a record, [(wins, losses, draws, matches)]. *)
Definition counters (r : ImageRecord) : Z * Z * Z * Z :=
  (wins r, losses r, draws r, matches r).

Definition balanced (c : Z * Z * Z * Z) : Prop :=
  (c.2 = c.1.1.1 + c.1.1.2 + c.1.2
   /\ 0 <= c.1.1.1 /\ 0 <= c.1.1.2 /\ 0 <= c.1.2 /\ 0 <= c.2)%Z.

(** The value stored under [key] after a mutation at [key']. *)
Definition mutated {V} (key' : string) (f : V -> V) (key : string) (v : V) : V :=
  if decide (key = key') then f v else v.

(** A log entry names only ids of [keys], has a winner exactly when it has a
    loser, and has neither when it is flagged as a draw. *)
Definition entry_refers_to (keys : list string) (h : MatchRecord) : Prop :=
  (forall key, winner_id h = Some key -> key ∈ keys)
  /\ (forall key, loser_id h = Some key -> key ∈ keys)
  /\ (winner_id h = None <-> loser_id h = None)
  /\ (draw h = true -> winner_id h = None).

(** The catalog and the log are consistent. *)
Definition well_formed (s : ImageManager.t) : Prop :=
  dict_wf (ImageManager.images s)
  /\ keyed_by_id (ImageManager.images s)
  /\ Forall (entry_refers_to (dict_keys (ImageManager.images s)))
            (ImageManager.history s).

(** ** Sample states *)

(** Two registered images and an empty log. *)
Definition cat : string := "cat".
Definition dog : string := "dog".
Definition image0 (key : string) : ImageRecord :=
  {| id := key; path := "/p/" +:+ key; name := key; rating := DEFAULT_ELO;
     wins := 0; losses := 0; draws := 0; matches := 0; added_at := "t0" |}.
Definition two_images : ImageManager.t :=
  {| ImageManager.images := [(cat, image0 cat); (dog, image0 dog)];
     ImageManager.history := [] |}.

Definition three_images : ImageManager.t :=
  {| ImageManager.images :=
       [(cat, image0 cat); (dog, image0 dog); ("fox", image0 "fox")];
     ImageManager.history := [] |}.

(** Sample documents. *)

(** No ["images"] and no ["history"] section. *)
Definition empty_document : json := JDict [].

(** One image whose id is a number, whose path is null and whose rating is a
    string, without counters; no ["history"] section. *)
Definition ill_typed_document : json :=
  JDict [("images",
          JDict [("x", JDict [("id", JInt 7); ("path", JNull);
                              ("name", JStr "n"); ("rating", JStr "high")])])].

(** One image without ["path"]. *)
Definition pathless_document : json :=
  JDict [("images", JDict [("x", JDict [("id", JStr "x"); ("name", JStr "n")])]);
         ("history", JList [])].



(** A log entry for a draw between [cat] and [dog], and the two images with
    that entry logged. *)
Definition draw_entry : MatchRecord :=
  {| timestamp := "t1"; winner_id := None; loser_id := None; draw := true;
     winner_rating_before := 1000; loser_rating_before := 1000;
     winner_rating_after := 1000; loser_rating_after := 1000 |}.
Definition drawn_images : ImageManager.t :=
  {| ImageManager.images := ImageManager.images two_images;
     ImageManager.history := [draw_entry] |}.

(** A document whose first image is complete and whose second has no
    ["path"]. *)
Definition good_image : json :=
  JDict [("id", JStr "x"); ("path", JStr "/p/x"); ("name", JStr "x")].
Definition pathless_image : json :=
  JDict [("id", JStr "y"); ("name", JStr "y")].
Definition half_good_document : dict json :=
  [("images", JDict [("x", good_image); ("y", pathless_image)]);
   ("history", JList [])].

(** Two dropped files, the first with a space in its name. *)
Definition sample_drop : list (bool * string) :=
  [(true, "my cat.png"); (false, "dog.jpg")].

(** The voting screen showing [cat] on the left and [dog] on the right. *)
Definition cat_or_dog : Voting.t :=
  {| Voting.im := two_images;
     Voting.current_pair := Some (image0 cat, image0 dog);
     Voting.pair_mode_smart := false |}.

(** C's [pow(10.0, y)] at the exponents of the examples below, as glibc
    computes it: the double nearest to [10^2.5], infinity from [308.2734375]
    on, where the exact power is beyond the largest double, and zero up to
    [-324], where it is below half the smallest one.  Elsewhere the table
    says 1.0; no example reads it there. *)
Definition libm_sample (x y : float) : float :=
  if (y =? 2.5)%float then 0x1.3c3a4edfa9759p+8%float
  else if (308.2734375 <=? y)%float then infinity
  else if (y <=? -324)%float then 0%float
  else 1%float.

(** What a C library that is right to one unit in the last place may
    answer for [10^2.5]: the double nearest to the exact power and its two
    neighbours. *)
Definition near_pow10_2_5 : list float :=
  [0x1.3c3a4edfa9758p+8; 0x1.3c3a4edfa9759p+8; 0x1.3c3a4edfa975ap+8]%float.

(** * Properties *)

(** ** The rating update *)

Lemma pow10_pos x : 0 < EloEngine.pow10 x.
Proof. unfold EloEngine.pow10, Rpower. apply exp_pos. Qed.

(** Where the exact power leaves the range of the doubles: at exponents
    from [4624 / 15] (about 308.267) on it is above the largest double, so
    that C's [pow] reports an overflow; at exponents up to [-324] it is
    below half the smallest positive double, [2^-1074], and rounds to
    zero. *)
Lemma pow10_above_DBL_MAX y :
  4624 / 15 <= y -> DBL_MAX < EloEngine.pow10 y.
Proof.
  intros Hy.
  assert (DBL_MAX < 2 ^ 1024) as Hmax.
  { unfold DBL_MAX. replace (2 ^ 1024) with (2 ^ 53 * 2 ^ 971).
    - assert (0 < 2 ^ 971) by (apply pow_lt; lra). nra.
    - rewrite <- pow_add. reflexivity. }
  apply Rlt_le_trans with (2 ^ 1024); [exact Hmax|].
  apply Rle_trans with (EloEngine.pow10 (4624 / 15)).
  2:{ unfold EloEngine.pow10. destruct Hy as [Hlt| <-]; [|lra].
      left. apply Rpower_lt; lra. }
  destruct (Rle_lt_dec (2 ^ 1024) (EloEngine.pow10 (4624 / 15)))
    as [Hle|Hlt]; [exact Hle|exfalso].
  pose proof (pow10_pos (4624 / 15)) as Hpos.
  assert (EloEngine.pow10 (4624 / 15) ^ 15 <= (2 ^ 1024) ^ 15) as Hpow
    by (apply pow_incr; lra).
  rewrite <- pow_mult in Hpow.
  rewrite <- (Rpower_pow 15) in Hpow by exact Hpos.
  unfold EloEngine.pow10 in Hpow. rewrite Rpower_mult in Hpow.
  replace (4624 / 15 * INR 15) with (INR (Z.to_nat 4624)) in Hpow.
  2:{ rewrite !INR_IZR_INZ, Z2Nat.id by lia.
      change (Z.of_nat 15) with 15%Z. lra. }
  rewrite Rpower_pow in Hpow by lra.
  change 10 with (IZR 10) in Hpow. change 2 with (IZR 2) in Hpow.
  rewrite !pow_IZR in Hpow. apply le_IZR in Hpow.
  revert Hpow. by vm_compute.
Qed.

Lemma pow10_below_half_DBL_TRUE_MIN y :
  y <= -324 -> EloEngine.pow10 y < DBL_TRUE_MIN / 2.
Proof.
  intros Hy.
  apply Rle_lt_trans with (EloEngine.pow10 (-324)).
  { unfold EloEngine.pow10. destruct Hy as [Hlt| ->]; [|lra].
    left. apply Rpower_lt; lra. }
  unfold EloEngine.pow10, DBL_TRUE_MIN.
  replace (-324) with (- INR 324)
    by (rewrite INR_IZR_INZ; change (Z.of_nat 324) with 324%Z; lra).
  rewrite Rpower_Ropp, Rpower_pow by lra.
  replace (/ 2 ^ 1074 / 2) with (/ 2 ^ 1075)
    by (change 1075%nat with (S 1074); cbn [pow]; field; apply pow_nonzero; lra).
  apply Rinv_lt_contravar.
  - apply Rmult_lt_0_compat; apply pow_lt; lra.
  - change 10 with (IZR 10). change 2 with (IZR 2).
    rewrite !pow_IZR. apply IZR_lt. by vm_compute.
Qed.

(** The exact [10^2.5] lies strictly between the first and the last double
    of [near_pow10_2_5], whose mantissas are [m - 1] and [m + 1] for
    [m = 0x13c3a4edfa9759] at exponent [2^-44]. *)
Lemma pow10_2_5_bracket :
  IZR (0x13c3a4edfa9759 - 1) / 2 ^ 44 < EloEngine.pow10 (5 / 2)
  < IZR (0x13c3a4edfa9759 + 1) / 2 ^ 44.
Proof.
  pose proof (pow10_pos (5 / 2)) as Hpos.
  assert (EloEngine.pow10 (5 / 2) * EloEngine.pow10 (5 / 2) = 10 ^ 5) as Hsq.
  { unfold EloEngine.pow10. rewrite <- Rpower_plus.
    replace (5 / 2 + 5 / 2) with (INR 5) by (cbn; lra).
    apply Rpower_pow. lra. }
  assert (0 < 2 ^ 44) as H44 by (apply pow_lt; lra).
  assert (forall m : Z, (0 <= m)%Z ->
            (IZR m / 2 ^ 44) * (IZR m / 2 ^ 44) = IZR (m * m) / 2 ^ 88) as Hm.
  { intros m _. rewrite mult_IZR.
    replace (2 ^ 88) with (2 ^ 44 * 2 ^ 44) by (rewrite <- pow_add; reflexivity).
    field; lra. }
  assert (forall m : Z, (0 <= m)%Z -> 0 <= IZR m / 2 ^ 44) as Hnn.
  { intros m Hge. apply Rmult_le_pos; [by apply IZR_le|].
    left. by apply Rinv_0_lt_compat. }
  assert (10 ^ 5 = IZR (10 ^ 5 * 2 ^ 88) / 2 ^ 88) as H105.
  { rewrite mult_IZR. change 10 with (IZR 10) at 1. change 2 with (IZR 2).
    rewrite !pow_IZR. change (Z.of_nat 5) with 5%Z.
    change (Z.of_nat 88) with 88%Z. field.
    try (apply not_0_IZR; by vm_compute). }
  assert (0 < 2 ^ 88) as H88 by (apply pow_lt; lra).
  split.
  - destruct (Rlt_le_dec (IZR (0x13c3a4edfa9759 - 1) / 2 ^ 44)
                (EloEngine.pow10 (5 / 2))) as [Hlt|Hge]; [exact Hlt|exfalso].
    assert (10 ^ 5 <= IZR (0x13c3a4edfa9759 - 1) / 2 ^ 44
                      * (IZR (0x13c3a4edfa9759 - 1) / 2 ^ 44)) as Hbad.
    { rewrite <- Hsq. apply Rmult_le_compat; lra. }
    rewrite Hm, H105 in Hbad by (by vm_compute).
    apply Rmult_le_reg_r in Hbad; [|by apply Rinv_0_lt_compat].
    apply le_IZR in Hbad. revert Hbad. by vm_compute.
  - destruct (Rlt_le_dec (EloEngine.pow10 (5 / 2))
                (IZR (0x13c3a4edfa9759 + 1) / 2 ^ 44)) as [Hlt|Hge];
      [exact Hlt|exfalso].
    pose proof (Hnn (0x13c3a4edfa9759 + 1)%Z ltac:(by vm_compute)) as Hd.
    assert (IZR (0x13c3a4edfa9759 + 1) / 2 ^ 44
            * (IZR (0x13c3a4edfa9759 + 1) / 2 ^ 44) <= 10 ^ 5) as Hbad.
    { rewrite <- Hsq. apply Rmult_le_compat; lra. }
    rewrite Hm, H105 in Hbad by (by vm_compute).
    apply Rmult_le_reg_r in Hbad; [|by apply Rinv_0_lt_compat].
    apply le_IZR in Hbad. revert Hbad. by vm_compute.
Qed.

Lemma pow10_raises pow y :
  Binary64.pow10 pow y = inl OverflowError
  <-> is_finite y && negb (y =? 0)%float && is_infinity (pow 10%float y)
      = true.
Proof.
  unfold Binary64.pow10, is_finite.
  destruct (y =? 0)%float, (is_nan y), (is_infinity y),
    (is_infinity (pow 10%float y)); cbn; split; congruence.
Qed.

(** C1 (as amended).  On doubles [update_ratings] returns the two values of
    the formula, with [K = 32] and the expected score [qx / (qx + qy)]
    ([0.5] when [qx + qy == 0]), whenever neither power [10 ** (r / 400)]
    overflows, and raises [OverflowError] when one does.  A power overflows
    exactly when its exponent is finite and not zero and the C library's
    [pow] answers infinity.  With a C library that is right to one unit in
    the last place at [10 ** 2.5], [update_ratings(1000, 1000, 1.0)] is
    [(1016.0, 984.0)] and [update_ratings(1000, 1000, 0.5)] is
    [(1000.0, 1000.0)]. *)
Theorem update_ratings_binary64 pow ra rb result :
  match Binary64.pow10 pow (ra / 400), Binary64.pow10 pow (rb / 400) with
  | inr qa, inr qb =>
      Binary64.update_ratings pow Binary64.init ra rb result
      = inr (ra + 32 * (result - score_of qa qb),
             rb + 32 * ((1 - result) - score_of qb qa))%float
  | _, _ =>
      Binary64.update_ratings pow Binary64.init ra rb result
      = inl OverflowError
  end
  /\ (forall y,
        Binary64.pow10 pow y = inl OverflowError
        <-> is_finite y && negb (y =? 0)%float
            && is_infinity (pow 10%float y) = true)
  /\ (pow 10%float 2.5%float ∈ near_pow10_2_5 ->
      Binary64.update_ratings pow Binary64.init 1000 1000 1
      = inr (1016, 984)%float
      /\ Binary64.update_ratings pow Binary64.init 1000 1000 0.5
         = inr (1000, 1000)%float).
Proof.
  split; [|split].
  - unfold Binary64.update_ratings, Binary64.expected_score, score_of.
    destruct (Binary64.pow10 pow (ra / 400)) as [[]|qa];
      destruct (Binary64.pow10 pow (rb / 400)) as [[]|qb]; try reflexivity.
    destruct (qa + qb =? 0)%float, (qb + qa =? 0)%float; reflexivity.
  - intros y. apply pow10_raises.
  - unfold near_pow10_2_5. rewrite !elem_of_cons, elem_of_nil.
    unfold Binary64.update_ratings, Binary64.expected_score, Binary64.pow10.
    change (1000 / 400)%float with 2.5%float.
    intros [Hq|[Hq|[Hq|[]]]]; rewrite Hq; split; reflexivity.
Qed.

Lemma update_ratings_binary64_witness :
  libm_sample 10 2.5 ∈ near_pow10_2_5
  /\ Binary64.update_ratings libm_sample Binary64.init 1000 1000 1
     = inr (1016, 984)%float
  /\ Binary64.update_ratings libm_sample Binary64.init (-130000) (-140000) 1
     = inr (-129984, -140016)%float.
Proof.
  assert (libm_sample 10 2.5 ∈ near_pow10_2_5) as Hq by (right; left).
  split; [exact Hq|].
  destruct (update_ratings_binary64 libm_sample 1000 1000 1)
    as (_ & _ & Hinst).
  split; [exact (proj1 (Hinst Hq))|].
  exact (proj1 (update_ratings_binary64 libm_sample (-130000) (-140000) 1)).
Defined.

(** C1, as the claim states it, fails at the finite ratings [123310.0] and
    [0.0]: the power [10 ** 308.275] is out of range and the call raises
    [OverflowError] where the claim promises a pair of ratings. *)
Lemma update_ratings_overflows :
  is_finite 123310 = true /\ is_finite 0 = true
  /\ Binary64.update_ratings libm_sample Binary64.init 123310 0 1
     = inl OverflowError.
Proof. repeat split. Qed.

(** ** Dicts *)

Section dict_facts.
Context {V : Type}.
Implicit Types (d : dict V) (key : string).

Lemma dict_in_true key d : dict_in key d = true <-> is_Some (dict_get key d).
Proof.
  unfold dict_in. destruct (dict_get key d); split; intros H;
    try done; eauto; by destruct H.
Qed.

Lemma dict_in_false key d : dict_in key d = false <-> dict_get key d = None.
Proof. unfold dict_in. by destruct (dict_get key d). Qed.

Lemma dict_get_Some_elem key v d : dict_get key d = Some v -> (key, v) ∈ d.
Proof.
  induction d as [|[k' v'] d IH]; cbn; [done|].
  case_decide; intros Hg.
  - simplify_eq. left.
  - right. auto.
Qed.

Lemma dict_get_Some_key key v d : dict_get key d = Some v -> key ∈ dict_keys d.
Proof.
  intros H%dict_get_Some_elem. unfold dict_keys.
  apply list_elem_of_fmap. by exists (key, v).
Qed.

Lemma dict_get_None key d : dict_get key d = None <-> key ∉ dict_keys d.
Proof.
  unfold dict_keys. induction d as [|[k' v'] d IH]; cbn.
  - split; [intros _; apply not_elem_of_nil | done].
  - rewrite not_elem_of_cons. case_decide; [subst|]; cbn in *; intuition congruence.
Qed.

Lemma dict_key_get key d : key ∈ dict_keys d -> is_Some (dict_get key d).
Proof.
  intros Hin. destruct (dict_get key d) eqn:E; [eauto|].
  by apply dict_get_None in E.
Qed.

Lemma dict_elem_get key v d : dict_wf d -> (key, v) ∈ d -> dict_get key d = Some v.
Proof.
  unfold dict_wf, dict_keys.
  induction d as [|[k' v'] d IH]; cbn; intros Hwf Hin.
  - by apply elem_of_nil in Hin.
  - apply NoDup_cons in Hwf as [Hk Hwf].
    apply elem_of_cons in Hin as [Heq|Hin].
    + simplify_eq. by rewrite decide_True.
    + case_decide; [subst|by auto].
      exfalso. apply Hk, list_elem_of_fmap. by exists (key, v).
Qed.

Lemma dict_keys_mutate key (f : V -> V) d :
  dict_keys (dict_mutate key f d) = dict_keys d.
Proof.
  unfold dict_keys, dict_mutate. rewrite <- list_fmap_compose.
  apply list_fmap_ext. intros i [k' v'] _. cbn. by case_decide.
Qed.

Lemma dict_get_mutate key key' (f : V -> V) d :
  dict_get key (dict_mutate key' f d)
  = if decide (key = key') then f <$> dict_get key d else dict_get key d.
Proof.
  induction d as [|[k'' v''] d IH]; cbn.
  - by case_decide.
  - unfold dict_mutate in *. rewrite IH. clear IH.
    repeat (case_decide; simplify_eq; cbn in *); done.
Qed.


Lemma dict_mutate_comm key key' (f g : V -> V) d :
  key <> key' ->
  dict_mutate key f (dict_mutate key' g d)
  = dict_mutate key' g (dict_mutate key f d).
Proof.
  intros Hne. unfold dict_mutate. rewrite <- !list_fmap_compose.
  apply list_fmap_ext. intros i [k' v'] _. cbn.
  repeat (case_decide; cbn in *; simplify_eq); done.
Qed.

Lemma dict_values_mutate_Forall (P : V -> Prop) key (f : V -> V) d :
  (forall v, P v -> P (f v)) ->
  Forall P (dict_values d) -> Forall P (dict_values (dict_mutate key f d)).
Proof.
  intros Hf. unfold dict_values, dict_mutate.
  rewrite <- list_fmap_compose, !Forall_fmap.
  intros HP. eapply Forall_impl; [exact HP|].
  intros [k' v'] HPv. cbn in *. case_decide; cbn; auto.
Qed.

Lemma dict_keys_set key v d :
  dict_keys (dict_set key v d)
  = if dict_in key d then dict_keys d else dict_keys d ++ [key].
Proof.
  unfold dict_keys, dict_in. induction d as [|[k' v'] d IH]; cbn; [done|].
  case_decide; cbn; [done|].
  rewrite IH. by destruct (dict_get key d).
Qed.

Lemma dict_set_fresh key v d :
  dict_get key d = None -> dict_set key v d = d ++ [(key, v)].
Proof.
  induction d as [|[k' v'] d IH]; cbn; [done|].
  case_decide; [done|]. intros Hg. by rewrite IH.
Qed.

Lemma dict_get_app key d1 d2 :
  dict_get key (d1 ++ d2)
  = match dict_get key d1 with Some v => Some v | None => dict_get key d2 end.
Proof.
  induction d1 as [|[k' v'] d1 IH]; cbn; [done|]. by case_decide.
Qed.

Lemma dict_get_del key key' d :
  dict_get key (dict_del key' d)
  = if decide (key = key') then None else dict_get key d.
Proof.
  unfold dict_del. induction d as [|[k'' v''] d IH].
  - cbn. by case_decide.
  - rewrite filter_cons. cbn [fst snd dict_get].
    repeat (case_decide; cbn [fst snd dict_get] in *; simplify_eq);
      rewrite ?IH; repeat (case_decide; simplify_eq); done.
Qed.

Lemma dict_del_absent key d : dict_get key d = None -> dict_del key d = d.
Proof.
  unfold dict_del. induction d as [|[k' v'] d IH]; [done|].
  cbn [dict_get]. case_decide; [done|]. intros Hg. rewrite filter_cons.
  cbn [fst]. rewrite decide_True by done. by rewrite IH.
Qed.

End dict_facts.

(** ** Recording a match *)



#[local] Opaque MATCH_HISTORY_LIMIT.

Lemma apply_stats_run a_id b_id result s :
  ImageManager.apply_stats a_id b_id result s =
  if decide (result = 1) then
    (inr (Some a_id, Some b_id),
     ImageManager.set_images
       (dict_mutate b_id ImageManager.incr_losses
          (dict_mutate a_id ImageManager.incr_wins (ImageManager.images s))) s)
  else if decide (result = 0) then
    (inr (Some b_id, Some a_id),
     ImageManager.set_images
       (dict_mutate a_id ImageManager.incr_losses
          (dict_mutate b_id ImageManager.incr_wins (ImageManager.images s))) s)
  else
    (inr (None, None),
     ImageManager.set_images
       (dict_mutate b_id ImageManager.incr_draws
          (dict_mutate a_id ImageManager.incr_draws (ImageManager.images s))) s).
Proof. unfold ImageManager.apply_stats. repeat case_decide; reflexivity. Qed.

Lemma record_match_run a_id b_id result now s a b ids s1 :
  dict_get a_id (ImageManager.images s) = Some a ->
  dict_get b_id (ImageManager.images s) = Some b ->
  ImageManager.apply_stats a_id b_id result s = (inr ids, s1) ->
  let new := EloEngine.update_ratings ImageManager.elo (rating a) (rating b) result in
  ImageManager.record_match a_id b_id result now s
  = (inr tt,
     {| ImageManager.images :=
          dict_mutate b_id (set_rating new.2)
            (dict_mutate a_id (set_rating new.1)
               (dict_mutate b_id ImageManager.incr_matches
                  (dict_mutate a_id ImageManager.incr_matches
                     (ImageManager.images s1))));
        ImageManager.history :=
          take (Z.to_nat MATCH_HISTORY_LIMIT)
            (ImageManager.new_record a_id b_id result now ids.1 ids.2
               (rating a) (rating b) new.1 new.2
             :: ImageManager.history s1) |}).
Proof.
  intros Ha Hb Hst new. subst new.
  unfold ImageManager.record_match, ImageManager.getattr,
    ImageManager.setattr, modify, gets, dict_in.
  repeat (progress
    (unfold mbind, Py_bind, mret, Py_ret; cbv beta iota zeta;
     rewrite ?Ha, ?Hb, ?Hst;
     cbn [negb orb ImageManager.images ImageManager.history
          ImageManager.set_images ImageManager.set_history])).
  case_decide; cbv beta; unfold ImageManager.set_history; [reflexivity|].
  cbn [ImageManager.images ImageManager.history].
  do 2 f_equal. symmetry. apply take_ge. lia.
Qed.


Lemma record_match_raises s a_id b_id result now :
  dict_in a_id (ImageManager.images s) && dict_in b_id (ImageManager.images s)
  = false ->
  ImageManager.record_match a_id b_id result now s
  = (inl (KeyError "Image id not found"), s).
Proof.
  intros Habs. unfold ImageManager.record_match, mbind, Py_bind, gets.
  rewrite <- negb_andb, Habs. reflexivity.
Qed.

(** C3.  When at least one of the two ids is absent from the catalog,
    [record_match] raises [KeyError] and the manager (every record and the
    match log) is left as it was. *)
Theorem record_match_unknown_id s a_id b_id result now :
  dict_get a_id (ImageManager.images s) = None
  \/ dict_get b_id (ImageManager.images s) = None ->
  ImageManager.record_match a_id b_id result now s
  = (inl (KeyError "Image id not found"), s).
Proof.
  intros Habs. apply record_match_raises. apply andb_false_iff.
  rewrite !dict_in_false. exact Habs.
Qed.





Lemma record_match_unknown_id_witness :
  dict_get "fox" (ImageManager.images two_images) = None
  /\ ImageManager.record_match cat "fox" 1 "t1" two_images
     = (inl (KeyError "Image id not found"), two_images).
Proof.
  split; [reflexivity|].
  apply (record_match_unknown_id two_images cat "fox" 1 "t1").
  right. reflexivity.
Defined.



(** ** Sessions *)

Lemma dict_values_set_Forall {V} (P : V -> Prop) key v (d : dict V) :
  P v -> Forall P (dict_values d) -> Forall P (dict_values (dict_set key v d)).
Proof.
  intros Hv. unfold dict_values. induction d as [|[k' v'] d IH]; cbn.
  - intros _. by constructor.
  - intros [Hv' Hd]%Forall_cons. case_decide; cbn; constructor; auto.
Qed.

Lemma dict_values_del_Forall {V} (P : V -> Prop) key (d : dict V) :
  Forall P (dict_values d) -> Forall P (dict_values (dict_del key d)).
Proof.
  unfold dict_values, dict_del. rewrite !Forall_fmap.
  rewrite !Forall_forall. intros Hd x [_ Hx]%list_elem_of_filter. auto.
Qed.

Lemma dict_mutate_entries {V} key' (f : V -> V) (d : dict V) :
  dict_mutate key' f d = (fun kv => (kv.1, mutated key' f kv.1 kv.2)) <$> d.
Proof.
  unfold dict_mutate, mutated. apply list_fmap_ext. intros i [key v] _. cbn.
  by case_decide.
Qed.

Lemma counters_ok_balanced r : counters_ok r <-> balanced (counters r).
Proof. reflexivity. Qed.

Lemma counters_set_rating v r : counters (set_rating v r) = counters r.
Proof. reflexivity. Qed.
Lemma counters_incr_wins r :
  counters (ImageManager.incr_wins r)
  = ((counters r).1.1.1 + 1, (counters r).1.1.2, (counters r).1.2, (counters r).2)%Z.
Proof. reflexivity. Qed.
Lemma counters_incr_losses r :
  counters (ImageManager.incr_losses r)
  = ((counters r).1.1.1, (counters r).1.1.2 + 1, (counters r).1.2, (counters r).2)%Z.
Proof. reflexivity. Qed.
Lemma counters_incr_draws r :
  counters (ImageManager.incr_draws r)
  = ((counters r).1.1.1, (counters r).1.1.2, (counters r).1.2 + 1, (counters r).2)%Z.
Proof. reflexivity. Qed.
Lemma counters_incr_matches r :
  counters (ImageManager.incr_matches r)
  = ((counters r).1.1.1, (counters r).1.1.2, (counters r).1.2, (counters r).2 + 1)%Z.
Proof. reflexivity. Qed.

Lemma counters_ok_mutated a_id b_id f1 f2 k1 k2 ra rb d :
  (k1 = a_id /\ k2 = b_id \/ k1 = b_id /\ k2 = a_id) ->
  (f1 = ImageManager.incr_wins /\ f2 = ImageManager.incr_losses
   \/ f1 = ImageManager.incr_draws /\ f2 = ImageManager.incr_draws) ->
  Forall counters_ok (dict_values d) ->
  Forall counters_ok
    (dict_values
       (dict_mutate b_id (set_rating rb)
          (dict_mutate a_id (set_rating ra)
             (dict_mutate b_id ImageManager.incr_matches
                (dict_mutate a_id ImageManager.incr_matches
                   (dict_mutate k2 f2 (dict_mutate k1 f1 d))))))).
Proof.
  intros Hk Hf. rewrite !dict_mutate_entries. unfold dict_values.
  rewrite <- !list_fmap_compose, !Forall_fmap.
  intros Hd. eapply Forall_impl; [exact Hd|]. clear Hd.
  intros [key r]. unfold compose, mutated. cbn [fst snd].
  rewrite !counters_ok_balanced. intros Hok.
  destruct Hk as [[-> ->]|[-> ->]], Hf as [[-> ->]|[-> ->]];
    destruct (decide (key = a_id)), (decide (key = b_id));
    repeat (rewrite counters_set_rating || rewrite counters_incr_wins
            || rewrite counters_incr_losses || rewrite counters_incr_draws
            || rewrite counters_incr_matches);
    destruct (counters r) as [[[w l] dr] m];
    unfold balanced in *; cbn [fst snd] in *; lia.
Qed.

(** The state left by each operation. *)

Lemma record_match_state s a_id b_id result now :
  (dict_in a_id (ImageManager.images s) && dict_in b_id (ImageManager.images s)
   = false
   /\ ImageManager.record_match a_id b_id result now s
      = (inl (KeyError "Image id not found"), s))
  \/ (dict_in a_id (ImageManager.images s) = true
      /\ dict_in b_id (ImageManager.images s) = true
      /\ exists ra rb k1 k2 f1 f2 e,
        (k1 = a_id /\ k2 = b_id \/ k1 = b_id /\ k2 = a_id)
        /\ (f1 = ImageManager.incr_wins /\ f2 = ImageManager.incr_losses
            \/ f1 = ImageManager.incr_draws /\ f2 = ImageManager.incr_draws)
        /\ timestamp e = now
        /\ ImageManager.record_match a_id b_id result now s
           = (inr tt,
              {| ImageManager.images :=
                   dict_mutate b_id (set_rating rb)
                     (dict_mutate a_id (set_rating ra)
                        (dict_mutate b_id ImageManager.incr_matches
                           (dict_mutate a_id ImageManager.incr_matches
                              (dict_mutate k2 f2
                                 (dict_mutate k1 f1 (ImageManager.images s))))));
                 ImageManager.history :=
                   take (Z.to_nat MATCH_HISTORY_LIMIT)
                     (e :: ImageManager.history s) |})).
Proof.
  destruct (dict_get a_id (ImageManager.images s)) as [a|] eqn:Ha;
    [destruct (dict_get b_id (ImageManager.images s)) as [b|] eqn:Hb|].
  - right. unfold dict_in. rewrite Ha, Hb. do 2 (split; [done|]).
    pose proof (apply_stats_run a_id b_id result s) as Hst.
    repeat case_decide;
      pose proof (record_match_run _ _ _ now _ _ _ _ _ Ha Hb Hst) as Hrun;
      cbn [ImageManager.images ImageManager.history ImageManager.set_images
           fst snd] in Hrun;
      do 7 eexists; (split; [|split; [|split; [|exact Hrun]]]);
      first [ reflexivity
            | left; split; reflexivity
            | right; split; reflexivity ].
  - assert (dict_in a_id (ImageManager.images s)
            && dict_in b_id (ImageManager.images s) = false) as Habs
      by (unfold dict_in; by rewrite Ha, Hb).
    left. split; [exact Habs|]. by apply record_match_raises.
  - assert (dict_in a_id (ImageManager.images s)
            && dict_in b_id (ImageManager.images s) = false) as Habs
      by (unfold dict_in; by rewrite Ha).
    left. split; [exact Habs|]. by apply record_match_raises.
Qed.

Lemma remove_image_state s image_id :
  ImageManager.remove_image image_id s
  = (inr tt,
     if dict_in image_id (ImageManager.images s) then
       {| ImageManager.images := dict_del image_id (ImageManager.images s);
          ImageManager.history :=
            filter (fun h => winner_id h <> Some image_id
                             /\ loser_id h <> Some image_id)
                   (ImageManager.history s) |}
     else s).
Proof.
  unfold ImageManager.remove_image, mbind, Py_bind, gets.
  destruct (dict_in image_id (ImageManager.images s)); reflexivity.
Qed.

Lemma ui_reset_ratings_state s confirmed :
  EloVotingApp.ui_reset_ratings confirmed s
  = (inr tt,
     match ImageManager.images s with
     | [] => s
     | _ => if confirmed then
              {| ImageManager.images :=
                   prod_map (fun key => key) reset_record
                   <$> ImageManager.images s;
                 ImageManager.history := [] |}
            else s
     end).
Proof.
  unfold EloVotingApp.ui_reset_ratings, mbind, Py_bind, gets.
  destruct (ImageManager.images s) eqn:Hd; [reflexivity|].
  destruct confirmed; [|reflexivity].
  cbn [negb]. unfold modify, ImageManager.set_images, ImageManager.set_history.
  cbn [ImageManager.images ImageManager.history]. by rewrite Hd.
Qed.

Section session_facts.
Variables (abspath basename : string -> string) (hash : string -> Z).

Lemma add_image_state s p e now :
  (ImageManager.add_image abspath basename hash p e now s).2 = s
  \/ exists uid rec,
      dict_get uid (ImageManager.images s) = None
      /\ counters_ok rec /\ id rec = uid
      /\ (ImageManager.add_image abspath basename hash p e now s).2
         = ImageManager.set_images (dict_set uid rec (ImageManager.images s)) s.
Proof.
  unfold ImageManager.add_image. destruct e; cbn [negb]; [|by left].
  unfold mbind, Py_bind, gets.
  destruct (dict_get _ (ImageManager.images s)) eqn:Hget; [by left|].
  right. do 2 eexists. split; [exact Hget|].
  split; [|split; [|reflexivity]]; [|reflexivity].
  unfold counters_ok. cbn. lia.
Qed.

Lemma after_counters_ok s o :
  Forall counters_ok (dict_values (ImageManager.images s)) ->
  Forall counters_ok
    (dict_values (ImageManager.images (after abspath basename hash s o))).
Proof.
  intros Hs. unfold after. destruct o as [p e now|a b result now|i|c];
    cbn [perform].
  - unfold mbind, Py_bind.
    destruct (add_image_state s p e now) as [Heq|(uid & rec & _ & Hok & _ & Heq)];
      destruct (ImageManager.add_image abspath basename hash p e now s)
        as [[?|?] s']; cbn [snd] in *; subst s'; try done;
      by apply dict_values_set_Forall.
  - destruct (record_match_state s a b result now)
      as [[_ ->]|(_ & _ & ra & rb & k1 & k2 & f1 & f2 & e0 & Hk & Hf & _ & ->)];
      [done|].
    cbn [snd ImageManager.images]. by apply counters_ok_mutated.
  - rewrite remove_image_state. cbn [snd].
    destruct (dict_in i (ImageManager.images s)); [|done].
    by apply dict_values_del_Forall.
  - rewrite ui_reset_ratings_state. cbn [snd].
    destruct (ImageManager.images s) as [|kv d] eqn:Hd; [by rewrite Hd|].
    destruct c; [|by rewrite Hd].
    cbn [ImageManager.images]. unfold dict_values.
    rewrite <- list_fmap_compose. apply Forall_fmap, Forall_true.
    intros [key rec]. unfold counters_ok. cbn. lia.
Qed.

Lemma run_invariant (I : ImageManager.t -> Prop) :
  I ImageManager.init ->
  (forall s o, I s -> I (after abspath basename hash s o)) ->
  forall ops, I (run abspath basename hash ops).
Proof.
  intros Hinit Hstep ops. unfold run.
  generalize dependent ImageManager.init.
  induction ops as [|o ops IH]; intros s Hs; cbn; auto.
Qed.

(** C4.  After every sequence of register, record-match (any result value),
    remove and reset operations run from the empty manager, every record has
    [matches = wins + losses + draws] and no negative counter. *)
Theorem counters_invariant (ops : list op) :
  Forall counters_ok
    (dict_values (ImageManager.images (run abspath basename hash ops))).
Proof.
  apply (run_invariant
           (fun s => Forall counters_ok (dict_values (ImageManager.images s)))).
  - constructor.
  - intros s o. apply after_counters_ok.
Qed.





End session_facts.


(** ** Sorting *)

Section sorting_facts.
Context {A : Type} (key : A -> R).

Lemma insert_desc_Permutation x l : insert_desc key x l ≡ₚ x :: l.
Proof.
  induction l as [|y l IH]; cbn; [done|].
  case_decide; [done|]. rewrite IH. apply Permutation_swap.
Qed.

Lemma sort_desc_Permutation l : sort_desc key l ≡ₚ l.
Proof.
  induction l as [|x l IH]; cbn; [done|].
  rewrite insert_desc_Permutation. by rewrite IH.
Qed.

Lemma insert_asc_Permutation x l : insert_asc key x l ≡ₚ x :: l.
Proof.
  induction l as [|y l IH]; cbn; [done|].
  case_decide; [done|]. rewrite IH. apply Permutation_swap.
Qed.

Lemma sort_asc_Permutation l : sort_asc key l ≡ₚ l.
Proof.
  induction l as [|x l IH]; cbn; [done|].
  rewrite insert_asc_Permutation. by rewrite IH.
Qed.

Lemma insert_asc_sorted x l :
  StronglySorted (key_le key) l -> StronglySorted (key_le key) (insert_asc key x l).
Proof.
  induction l as [|y l IH]; cbn; intros Hl.
  - repeat constructor.
  - apply StronglySorted_inv in Hl as [Hl Hy]. case_decide.
    + constructor; [by constructor|]. constructor; [done|].
      eapply Forall_impl; [exact Hy|]. intros z Hz. unfold key_le in *. lra.
    + constructor; [by apply IH|].
      rewrite insert_asc_Permutation. constructor; [|done].
      unfold key_le. lra.
Qed.

Lemma sort_asc_sorted l : StronglySorted (key_le key) (sort_asc key l).
Proof.
  induction l as [|x l IH]; cbn; [constructor|]. by apply insert_asc_sorted.
Qed.

End sorting_facts.

(** ** Removal *)

(** C6.  [remove_image] returns normally.  When the id is absent nothing
    changes.  When it is stored, its item is deleted and the log keeps
    exactly the entries whose winner and loser both differ from the id, in
    their order.  Afterwards the id is not in the catalog, the other items
    are untouched, and every record of [ranking()] is stored under another
    key; where records are stored under their own ids, no ranked record
    carries the removed id. *)
Theorem remove_image_purges s image_id :
  let r := ImageManager.remove_image image_id s in
  let s' := r.2 in
  r.1 = inr tt
  /\ (dict_get image_id (ImageManager.images s) = None -> s' = s)
  /\ (is_Some (dict_get image_id (ImageManager.images s)) ->
      ImageManager.images s' = dict_del image_id (ImageManager.images s)
      /\ ImageManager.history s'
         = filter (fun h => winner_id h <> Some image_id
                            /\ loser_id h <> Some image_id)
                  (ImageManager.history s)
      /\ (forall h, h ∈ ImageManager.history s'
                    <-> h ∈ ImageManager.history s
                        /\ winner_id h <> Some image_id
                        /\ loser_id h <> Some image_id))
  /\ dict_get image_id (ImageManager.images s') = None
  /\ (forall key, key <> image_id ->
        dict_get key (ImageManager.images s')
        = dict_get key (ImageManager.images s))
  /\ (forall rec, rec ∈ ImageManager.ranking s' ->
        exists key, key <> image_id /\ (key, rec) ∈ ImageManager.images s)
  /\ (keyed_by_id (ImageManager.images s) ->
      forall rec, rec ∈ ImageManager.ranking s' -> id rec <> image_id).
Proof.
  intros r s'. subst r s'. rewrite remove_image_state. cbn [fst snd].
  assert (forall rec,
    rec ∈ ImageManager.ranking
            (if dict_in image_id (ImageManager.images s)
             then {| ImageManager.images :=
                       dict_del image_id (ImageManager.images s);
                     ImageManager.history :=
                       filter (fun h => winner_id h <> Some image_id
                                        /\ loser_id h <> Some image_id)
                              (ImageManager.history s) |}
             else s) ->
    exists key, key <> image_id /\ (key, rec) ∈ ImageManager.images s) as Hrank.
  { intros rec. unfold ImageManager.ranking.
    rewrite sort_desc_Permutation. unfold dict_values.
    intros ([key rec'] & -> & Hin)%list_elem_of_fmap. cbn [snd].
    exists key. destruct (dict_in image_id (ImageManager.images s)) eqn:Hpresent.
    - cbn [ImageManager.images] in Hin. unfold dict_del in Hin.
      apply list_elem_of_filter in Hin as [Hne Hin]. done.
    - split; [|done]. intros ->. apply dict_in_false in Hpresent.
      apply dict_get_None in Hpresent. apply Hpresent.
      unfold dict_keys. apply list_elem_of_fmap. by exists (image_id, rec'). }
  split; [done|]. split.
  { intros Habs. apply dict_in_false in Habs. by rewrite Habs. }
  split.
  { intros Hpresent. apply dict_in_true in Hpresent. rewrite Hpresent.
    cbn [ImageManager.images ImageManager.history].
    split; [done|]. split; [done|].
    intros h. rewrite list_elem_of_filter. tauto. }
  split.
  { destruct (dict_in image_id (ImageManager.images s)) eqn:Hpresent.
    - cbn [ImageManager.images]. rewrite dict_get_del. by rewrite decide_True.
    - by apply dict_in_false. }
  split.
  { intros key Hne.
    destruct (dict_in image_id (ImageManager.images s)); [|done].
    cbn [ImageManager.images]. rewrite dict_get_del. by rewrite decide_False. }
  split; [exact Hrank|].
  intros Hkeyed rec Hin. destruct (Hrank rec Hin) as (key & Hne & Hkv).
  unfold keyed_by_id in Hkeyed. rewrite Forall_forall in Hkeyed.
  specialize (Hkeyed _ Hkv). cbn in Hkeyed. congruence.
Qed.

Lemma remove_image_purges_witness :
  keyed_by_id (ImageManager.images two_images)
  /\ dict_get cat
       (ImageManager.images (ImageManager.remove_image cat two_images).2)
     = None
  /\ forall rec,
       rec ∈ ImageManager.ranking (ImageManager.remove_image cat two_images).2 ->
       id rec <> cat.
Proof.
  assert (keyed_by_id (ImageManager.images two_images)) as Hkeyed
    by (repeat constructor).
  split; [exact Hkeyed|].
  destruct (remove_image_purges two_images cat)
    as (_ & _ & _ & Hgone & _ & _ & Hrank).
  split; [exact Hgone|]. exact (Hrank Hkeyed).
Defined.

(** ** Pairing *)

Lemma length_filter_ne (x : string) (l : list string) :
  NoDup l -> x ∈ l -> length (filter (fun y => y <> x) l) = (length l - 1)%nat.
Proof.
  induction l as [|y l IH]; intros Hnd Hin.
  - by apply elem_of_nil in Hin.
  - apply NoDup_cons in Hnd as [Hy Hnd]. rewrite filter_cons.
    case_decide as Hne.
    + apply elem_of_cons in Hin as [->|Hin]; [done|].
      cbn [length]. rewrite IH by done.
      destruct l; [by apply elem_of_nil in Hin|]. cbn [length]. lia.
    + subst y. replace (length (x :: l) - 1)%nat with (length l)
        by (cbn [length]; lia).
      f_equal. clear IH Hin Hnd. induction l as [|z l IH]; [done|].
      rewrite filter_cons. apply not_elem_of_cons in Hy as [Hz Hy].
      rewrite decide_True by done. f_equal. by apply IH.
Qed.

Lemma candidates_elem s a_id a d key :
  (d, key) ∈ ImageManager.candidates s a_id a
  <-> key <> a_id
      /\ exists r, dict_get key (ImageManager.images s) = Some r
                   /\ d = Rabs (rating a - rating r).
Proof.
  unfold ImageManager.candidates. rewrite list_elem_of_omap. split.
  - intros (i & Hi & Hf). case_decide; [|done].
    destruct (dict_get i (ImageManager.images s)) as [r|] eqn:Hr;
      cbn in Hf; simplify_eq. eauto.
  - intros (Hne & r & Hr & ->). exists key. split.
    + by eapply dict_get_Some_key.
    + rewrite decide_True by done. rewrite Hr. done.
Qed.

Lemma candidates_keys s a_id a :
  (ImageManager.candidates s a_id a).*2
  = filter (fun key => key <> a_id) (dict_keys (ImageManager.images s)).
Proof.
  unfold ImageManager.candidates.
  assert (forall key, key ∈ dict_keys (ImageManager.images s) ->
                      is_Some (dict_get key (ImageManager.images s))) as Hall
    by (intros key; apply dict_key_get).
  induction (dict_keys (ImageManager.images s)) as [|key l IH]; [done|].
  cbn [omap list_omap]. rewrite filter_cons.
  destruct (Hall key ltac:(left)) as [r Hr].
  specialize (IH (fun y Hy => Hall y (list_elem_of_further _ _ _ Hy))).
  case_decide; [|exact IH]. rewrite Hr. cbn. by rewrite <- IH.
Qed.

Lemma candidates_length s a_id a :
  dict_wf (ImageManager.images s) ->
  a_id ∈ dict_keys (ImageManager.images s) ->
  length (ImageManager.candidates s a_id a)
  = (length (dict_keys (ImageManager.images s)) - 1)%nat.
Proof.
  intros Hwf Hin. rewrite <- (length_fmap snd), candidates_keys.
  by apply length_filter_ne.
Qed.

Lemma closest_spec s a_id a :
  dict_wf (ImageManager.images s) ->
  a_id ∈ dict_keys (ImageManager.images s) ->
  let n := length (dict_keys (ImageManager.images s)) in
  length (ImageManager.closest s a_id a) = Nat.min 6 (n - 1)
  /\ NoDup (ImageManager.closest s a_id a)
  /\ exists rest,
      ImageManager.closest s a_id a ++ rest ≡ₚ ImageManager.candidates s a_id a
      /\ forall x y, x ∈ ImageManager.closest s a_id a -> y ∈ rest ->
                     x.1 <= y.1.
Proof.
  intros Hwf Hin n. unfold ImageManager.closest.
  set (cs := sort_asc fst (ImageManager.candidates s a_id a)).
  assert (cs ≡ₚ ImageManager.candidates s a_id a) as Hperm
    by apply sort_asc_Permutation.
  assert (length cs = (n - 1)%nat) as Hlen
    by (rewrite Hperm; by apply candidates_length).
  assert (NoDup cs) as Hnd.
  { rewrite Hperm. apply (NoDup_fmap_1 snd). rewrite candidates_keys.
    by apply NoDup_filter. }
  split; [rewrite length_take; lia|].
  split; [eapply sublist_NoDup; [exact Hnd|apply sublist_take]|].
  exists (drop (Nat.min 6 (length cs)) cs). split.
  - by rewrite take_drop.
  - intros x y Hx Hy.
    pose proof (sort_asc_sorted fst (ImageManager.candidates s a_id a)) as Hs.
    fold cs in Hs. rewrite <- (take_drop (Nat.min 6 (length cs)) cs) in Hs.
    exact (StronglySorted_app_1_elem_of _ _ _ _ _ Hs Hx Hy).
Qed.

(** C9.  With fewer than two items both pairing functions return [None].
    Otherwise, for draws [i], [j] of the random source in range:
    [get_random_pair] returns the items at positions [i] and [j] of the id
    list (distinct items for distinct positions); [get_smart_pair] returns as
    A the item at position [i] of the id list and as B the item at position
    [j] of [closest], a list of [min 6 (n - 1)] candidates.  The candidates
    are all other items, each with the absolute difference of its rating to
    A's, and no candidate outside [closest] has a smaller difference than one
    inside.  Each id is at exactly one position of the id list and each
    member of [closest] at exactly one position of it, so a uniform draw of
    the position is a uniform choice of the item. *)
Theorem pair_selection s :
  let ids := dict_keys (ImageManager.images s) in
  let n := length ids in
  ((n < 2)%nat -> forall i j,
      ImageManager.get_smart_pair i j s = None
      /\ ImageManager.get_random_pair i j s = None)
  /\ ((2 <= n)%nat -> forall i j, (i < n)%nat -> (j < n)%nat ->
      exists a_id b_id a b,
        ImageManager.get_random_pair i j s = Some (a, b)
        /\ ids !! i = Some a_id /\ ids !! j = Some b_id
        /\ dict_get a_id (ImageManager.images s) = Some a
        /\ dict_get b_id (ImageManager.images s) = Some b
        /\ (dict_wf (ImageManager.images s) -> i <> j -> a_id <> b_id))
  /\ (dict_wf (ImageManager.images s) -> (2 <= n)%nat ->
      forall i j, (i < n)%nat -> (j < Nat.min 6 (n - 1))%nat ->
      exists a_id a chosen b,
        ImageManager.get_smart_pair i j s = Some (a, b)
        /\ ids !! i = Some a_id
        /\ dict_get a_id (ImageManager.images s) = Some a
        /\ ImageManager.closest s a_id a !! j = Some chosen
        /\ chosen.2 <> a_id
        /\ dict_get chosen.2 (ImageManager.images s) = Some b
        /\ chosen.1 = Rabs (rating a - rating b))
  /\ (dict_wf (ImageManager.images s) ->
      forall a_id a, dict_get a_id (ImageManager.images s) = Some a ->
        (forall d key,
            (d, key) ∈ ImageManager.candidates s a_id a
            <-> key <> a_id
                /\ exists r, dict_get key (ImageManager.images s) = Some r
                             /\ d = Rabs (rating a - rating r))
        /\ length (ImageManager.candidates s a_id a) = (n - 1)%nat
        /\ length (ImageManager.closest s a_id a) = Nat.min 6 (n - 1)
        /\ (exists rest,
              ImageManager.closest s a_id a ++ rest
              ≡ₚ ImageManager.candidates s a_id a
              /\ forall x y, x ∈ ImageManager.closest s a_id a -> y ∈ rest ->
                             x.1 <= y.1)
        /\ (forall c, c ∈ ImageManager.closest s a_id a ->
              exists j, ImageManager.closest s a_id a !! j = Some c
                        /\ forall j', ImageManager.closest s a_id a !! j'
                                      = Some c -> j' = j))
  /\ (dict_wf (ImageManager.images s) ->
      forall a_id, a_id ∈ ids ->
        exists i, ids !! i = Some a_id
                  /\ forall i', ids !! i' = Some a_id -> i' = i).
Proof.
  intros ids n. split; [|split; [|split; [|split]]].
  - intros Hn i j. unfold ImageManager.get_smart_pair,
      ImageManager.get_random_pair.
    fold ids. fold n. by rewrite !decide_True by done.
  - intros Hn i j Hi Hj.
    destruct (lookup_lt_is_Some_2 ids i Hi) as [a_id Ha].
    destruct (lookup_lt_is_Some_2 ids j Hj) as [b_id Hb].
    destruct (dict_key_get a_id (ImageManager.images s)) as [a Hga];
      [by eapply list_elem_of_lookup_2|].
    destruct (dict_key_get b_id (ImageManager.images s)) as [b Hgb];
      [by eapply list_elem_of_lookup_2|].
    exists a_id, b_id, a, b.
    unfold ImageManager.get_random_pair. fold ids. fold n.
    rewrite decide_False by lia. rewrite Ha, Hb. cbn. rewrite Hga, Hgb. cbn.
    repeat split; try done.
    intros Hwf Hij ->. apply Hij. by eapply NoDup_lookup.
  - intros Hwf Hn i j Hi Hj.
    destruct (lookup_lt_is_Some_2 ids i Hi) as [a_id Ha].
    assert (a_id ∈ ids) as Hin by (by eapply list_elem_of_lookup_2).
    destruct (dict_key_get a_id (ImageManager.images s) Hin) as [a Hga].
    destruct (closest_spec s a_id a Hwf Hin) as (Hlen & _ & rest & Hperm & _).
    fold ids in Hlen. fold n in Hlen.
    destruct (lookup_lt_is_Some_2 (ImageManager.closest s a_id a) j)
      as [chosen Hc]; [lia|].
    assert (chosen ∈ ImageManager.candidates s a_id a) as Hcand.
    { rewrite <- Hperm. apply elem_of_app. left.
      by eapply list_elem_of_lookup_2. }
    destruct chosen as [d key].
    apply candidates_elem in Hcand as (Hne & b & Hgb & ->).
    exists a_id, a, (Rabs (rating a - rating b), key), b.
    unfold ImageManager.get_smart_pair. fold ids. fold n.
    rewrite decide_False by lia. rewrite Ha. cbn [mbind option_bind].
    rewrite Hga. cbn [mbind option_bind]. rewrite Hc. cbn [mbind option_bind snd].
    rewrite Hgb. done.
  - intros Hwf a_id a Hga.
    assert (a_id ∈ ids) as Hin by (by eapply dict_get_Some_key).
    destruct (closest_spec s a_id a Hwf Hin) as (Hlen & Hnd & Hrest).
    split; [intros d key; apply candidates_elem|].
    split; [by apply candidates_length|].
    split; [exact Hlen|]. split; [exact Hrest|].
    intros c [j Hj]%list_elem_of_lookup_1. exists j. split; [done|].
    intros j' Hj'. by eapply NoDup_lookup.
  - intros Hwf a_id [i Hi]%list_elem_of_lookup_1. exists i. split; [done|].
    intros i' Hi'. by eapply NoDup_lookup.
Qed.

Lemma pair_selection_witness :
  dict_wf (ImageManager.images three_images)
  /\ exists a b, ImageManager.get_smart_pair 0 1 three_images = Some (a, b)
                 /\ id a = cat.
Proof.
  assert (dict_wf (ImageManager.images three_images)) as Hwf.
  { unfold dict_wf. apply (bool_decide_unpack _). vm_compute. exact I. }
  split; [exact Hwf|].
  destruct (pair_selection three_images) as (_ & _ & Hsmart & _).
  destruct (Hsmart Hwf) with (i := 0%nat) (j := 1%nat)
    as (a_id & a & chosen & b & Hpair & Hi & Ha & _).
  - vm_compute. lia.
  - vm_compute. lia.
  - vm_compute. lia.
  - exists a, b. split; [exact Hpair|].
    vm_compute in Hi. injection Hi as <-.
    vm_compute in Ha. injection Ha as <-. reflexivity.
Defined.

(** ** Persistence *)

Lemma for_each_images now items st :
  for_each items (fun item =>
    o ← lift (ImageRecord_new item.2 now);
    modify (fun self =>
      set_obj_images (dict_set item.1 o (obj_images self)) self)) st
  = match build_images now items (obj_images st) with
    | inl (e, partial) => (inl e, set_obj_images partial st)
    | inr imgs => (inr tt, set_obj_images imgs st)
    end.
Proof.
  revert st. induction items as [|item items IH]; intros st.
  - cbn. by destruct st.
  - cbn [for_each build_images]. unfold mbind, Py_bind, lift at 1.
    destruct (ImageRecord_new item.2 now) as [e|o].
    + by destruct st.
    + unfold modify at 1. rewrite IH. cbn [obj_images set_obj_images].
      by destruct (build_images now items _) as [[e partial]|imgs].
Qed.

Lemma load_from_file_run data now prior :
  load_from_file (Some data) now prior
  = match json_get "images" (JDict []) data with
    | inl e => (inl e, set_obj_images [] prior)
    | inr section =>
      match json_items section with
      | inl e => (inl e, set_obj_images [] prior)
      | inr items =>
        match build_images now items [] with
        | inl (e, partial) => (inl e, set_obj_images partial prior)
        | inr imgs =>
          match json_get "history" (JList []) data with
          | inl e => (inl e, set_obj_images imgs prior)
          | inr hv =>
            match json_iter hv with
            | inl e => (inl e, set_obj_images imgs prior)
            | inr hs =>
              match map_raise MatchRecord_new hs with
              | inl e => (inl e, set_obj_images imgs prior)
              | inr objs =>
                  (inr tt, {| obj_images := imgs; obj_history := objs |})
              end
            end
          end
        end
      end
    end.
Proof.
  unfold load_from_file.
  unfold mbind at 1, Py_bind at 1, modify at 1.
  unfold mbind at 1, Py_bind at 1, lift at 1.
  destruct (json_get "images" (JDict []) data) as [e|section]; [done|].
  unfold mbind at 1, Py_bind at 1, lift at 1.
  destruct (json_items section) as [e|items]; [done|].
  unfold mbind at 1, Py_bind at 1. rewrite for_each_images.
  cbn [obj_images set_obj_images].
  destruct (build_images now items []) as [[e partial]|imgs]; [done|].
  unfold mbind at 1, Py_bind at 1, lift at 1.
  destruct (json_get "history" (JList []) data) as [e|hv]; [done|].
  unfold mbind at 1, Py_bind at 1, lift at 1.
  destruct (json_iter hv) as [e|hs]; [done|].
  unfold mbind at 1, Py_bind at 1, lift at 1.
  destruct (map_raise MatchRecord_new hs) as [e|objs]; done.
Qed.

Lemma ImageRecord_new_to_dict r now :
  ImageRecord_new (JDict (ImageRecord_to_dict r)) now = inr (ImageRecord_obj r).
Proof. reflexivity. Qed.

Lemma MatchRecord_new_to_dict h :
  MatchRecord_new (JDict (MatchRecord_to_dict h)) = inr (MatchRecord_obj h).
Proof. reflexivity. Qed.

Lemma saved_images_fold (imgs l : dict ImageRecord) (acc : dict json) :
  (forall key r, (key, r) ∈ l -> dict_get key imgs = Some r) ->
  NoDup l.*1 ->
  (forall key, key ∈ l.*1 -> dict_get key acc = None) ->
  foldl (fun acc iid =>
           match dict_get iid imgs with
           | Some r => dict_set iid (JDict (ImageRecord_to_dict r)) acc
           | None => acc
           end) acc l.*1
  = acc ++ (prod_map (fun key => key) (fun r => JDict (ImageRecord_to_dict r))
            <$> l).
Proof.
  revert acc. induction l as [|[key r] l IH]; intros acc Hget Hnd Hfresh.
  - cbn. by rewrite app_nil_r.
  - cbn [fmap list_fmap foldl fst]. apply NoDup_cons in Hnd as [Hkey Hnd].
    rewrite (Hget key r) by left.
    rewrite dict_set_fresh by (apply Hfresh; left).
    rewrite IH.
    + by rewrite <- app_assoc.
    + intros key' r' Hin. apply Hget. by right.
    + done.
    + intros key' Hin. rewrite dict_get_app.
      rewrite Hfresh by (by right). cbn. rewrite decide_False; [done|].
      intros ->. done.
Qed.

Lemma build_images_saved now (l : dict ImageRecord) (acc : dict ImageRecordObj) :
  NoDup l.*1 ->
  (forall key, key ∈ l.*1 -> dict_get key acc = None) ->
  build_images now
    (prod_map (fun key => key) (fun r => JDict (ImageRecord_to_dict r)) <$> l)
    acc
  = inr (acc ++ (prod_map (fun key => key) ImageRecord_obj <$> l)).
Proof.
  revert acc. induction l as [|[key r] l IH]; intros acc Hnd Hfresh.
  - cbn. by rewrite app_nil_r.
  - cbn [fmap list_fmap build_images prod_map fst snd].
    rewrite ImageRecord_new_to_dict. apply NoDup_cons in Hnd as [Hkey Hnd].
    rewrite dict_set_fresh by (apply Hfresh; left).
    rewrite IH.
    + by rewrite <- app_assoc.
    + done.
    + intros key' Hin. rewrite dict_get_app.
      rewrite Hfresh by (by right). cbn. rewrite decide_False; [done|].
      intros ->. done.
Qed.

Lemma map_raise_saved (hist : list MatchRecord) :
  map_raise MatchRecord_new
    ((fun h => JDict (MatchRecord_to_dict h)) <$> hist)
  = inr (MatchRecord_obj <$> hist).
Proof.
  induction hist as [|h hist IH]; [done|].
  cbn [fmap list_fmap map_raise]. rewrite MatchRecord_new_to_dict.
  fold (fmap (M := list) (fun h => JDict (MatchRecord_to_dict h)) hist).
  by rewrite IH.
Qed.

Lemma ImageRecord_typed_obj r : ImageRecord_typed (ImageRecord_obj r) = Some r.
Proof. by destruct r. Qed.

Lemma MatchRecord_typed_obj h : MatchRecord_typed (MatchRecord_obj h) = Some h.
Proof. destruct h as [t [w|] [l|] d wb lb wa la]; reflexivity. Qed.

Lemma manager_typed_obj s : manager_typed (manager_obj s) = Some s.
Proof.
  destruct s as [imgs hist]. unfold manager_typed, manager_obj.
  cbn [obj_images obj_history ImageManager.images ImageManager.history].
  assert (mapM (fun kv => r ← ImageRecord_typed kv.2; Some (kv.1, r))
            (prod_map (fun key => key) ImageRecord_obj <$> imgs) = Some imgs)
    as ->.
  { apply mapM_Some. induction imgs as [|[key r] imgs IH]; constructor; [|done].
    unfold prod_map. cbn [fst snd]. by rewrite ImageRecord_typed_obj. }
  assert (mapM MatchRecord_typed (MatchRecord_obj <$> hist) = Some hist) as ->.
  { apply mapM_Some. induction hist as [|h hist IH]; constructor; [|done].
    apply MatchRecord_typed_obj. }
  reflexivity.
Qed.

(** C7.  Loading the document that [save_to_file] writes for a manager [s]
    returns normally, whatever the manager held before, and leaves exactly
    the records and log entries of [s]: the same ids in the same order, each
    with the same path, name, rating and counters, and the same entries in
    the same order; read back at their types the objects are [s]. *)
Theorem save_load_roundtrip s prior now :
  dict_wf (ImageManager.images s) ->
  load_from_file (Some (save_to_file s)) now prior = (inr tt, manager_obj s)
  /\ manager_typed (manager_obj s) = Some s.
Proof.
  intros Hwf. split; [|apply manager_typed_obj].
  rewrite load_from_file_run. unfold save_to_file, dict_keys. cbv zeta.
  rewrite (saved_images_fold (ImageManager.images s) (ImageManager.images s) []).
  - cbn [json_get dict_get app]. rewrite decide_True by done.
    cbn [default from_option]. unfold Datatypes.id. cbn [json_items].
    rewrite build_images_saved; [|done|done].
    rewrite decide_False by done. rewrite decide_True by done.
    cbn [default from_option app]. unfold Datatypes.id. cbn [json_iter].
    by rewrite map_raise_saved.
  - intros key r. by apply dict_elem_get.
  - done.
  - done.
Qed.

Lemma save_load_roundtrip_witness :
  dict_wf (ImageManager.images two_images)
  /\ load_from_file (Some (save_to_file two_images)) "t9"
       (manager_obj three_images)
     = (inr tt, manager_obj two_images).
Proof.
  assert (dict_wf (ImageManager.images two_images)) as Hwf.
  { unfold dict_wf. apply (bool_decide_unpack _). vm_compute. exact I. }
  split; [exact Hwf|].
  apply (save_load_roundtrip two_images (manager_obj three_images) "t9" Hwf).
Defined.

Lemma ImageRecord_new_error v now e :
  ImageRecord_new v now = inl e -> e = TypeError.
Proof.
  unfold ImageRecord_new. intros H. repeat case_match; by simplify_eq.
Qed.

Lemma MatchRecord_new_error v e : MatchRecord_new v = inl e -> e = TypeError.
Proof.
  unfold MatchRecord_new. intros H. repeat case_match; by simplify_eq.
Qed.

Lemma ImageRecord_new_missing kw field now :
  field ∈ ["id"; "path"; "name"] -> dict_get field kw = None ->
  ImageRecord_new (JDict kw) now = inl TypeError.
Proof.
  intros Hfield Hmissing. unfold ImageRecord_new.
  destruct (unexpected_keyword ImageRecord_fields kw); [done|].
  repeat (apply elem_of_cons in Hfield as [->|Hfield]);
    [| | |by apply elem_of_nil in Hfield];
    rewrite Hmissing; by repeat case_match.
Qed.

Lemma MatchRecord_new_missing kw field :
  field ∈ MatchRecord_fields -> dict_get field kw = None ->
  MatchRecord_new (JDict kw) = inl TypeError.
Proof.
  intros Hfield Hmissing. unfold MatchRecord_new.
  destruct (unexpected_keyword MatchRecord_fields kw); [done|].
  unfold MatchRecord_fields in Hfield.
  repeat (apply elem_of_cons in Hfield as [->|Hfield]);
    try (by apply elem_of_nil in Hfield);
    rewrite Hmissing; by repeat case_match.
Qed.

Lemma build_images_fails now items acc item :
  item ∈ items -> ImageRecord_new item.2 now = inl TypeError ->
  exists partial, build_images now items acc = inl (TypeError, partial).
Proof.
  revert acc. induction items as [|item' items IH]; intros acc Hin Hnew.
  - by apply elem_of_nil in Hin.
  - cbn [build_images].
    destruct (ImageRecord_new item'.2 now) as [e|o] eqn:Hitem.
    + apply ImageRecord_new_error in Hitem as ->. eauto.
    + apply elem_of_cons in Hin as [->|Hin]; [congruence|]. by apply IH.
Qed.

Lemma build_images_error now items acc e partial :
  build_images now items acc = inl (e, partial) -> e = TypeError.
Proof.
  revert acc. induction items as [|item items IH]; intros acc; [done|].
  cbn [build_images].
  destruct (ImageRecord_new item.2 now) as [e'|o] eqn:Hitem.
  - intros [= <- <-]. by eapply ImageRecord_new_error.
  - apply IH.
Qed.

Lemma map_raise_fails (hs : list json) h :
  h ∈ hs -> MatchRecord_new h = inl TypeError ->
  map_raise MatchRecord_new hs = inl TypeError.
Proof.
  induction hs as [|h' hs IH]; intros Hin Hnew.
  - by apply elem_of_nil in Hin.
  - cbn [map_raise]. destruct (MatchRecord_new h') as [e|o] eqn:Hh.
    + by apply MatchRecord_new_error in Hh as ->.
    + apply elem_of_cons in Hin as [->|Hin]; [congruence|].
      by rewrite IH.
Qed.

(** C8, as stated, fails: a document without the ["images"] and
    ["history"] sections loads without an exception, as an empty catalog and
    an empty log; and a document whose image has a number for id, null for
    path, a string for rating and no counters loads without an exception,
    the values stored as they are and the counters defaulted. *)
Lemma load_accepts_malformed :
  load_from_file (Some empty_document) "t9" (manager_obj two_images)
  = (inr tt, {| obj_images := []; obj_history := [] |})
  /\ load_from_file (Some ill_typed_document) "t9" (manager_obj two_images)
     = (inr tt,
        {| obj_images :=
             [("x", {| o_id := JInt 7; o_path := JNull; o_name := JStr "n";
                       o_rating := JStr "high"; o_wins := JInt 0;
                       o_losses := JInt 0; o_draws := JInt 0;
                       o_matches := JInt 0; o_added_at := JStr "t9" |})];
           obj_history := [] |}).
Proof. split; reflexivity. Qed.

(** C8, amended.  [load_from_file] raises [TypeError] when an image of the
    document lacks [id], [path] or [name], and raises ([TypeError], or
    [AttributeError] for an images section that is not an object) when an
    entry of the history list lacks one of the eight [MatchRecord] fields.  A
    document without the ["images"] and ["history"] sections loads as an
    empty catalog and an empty log; an image given [id], [path] and [name]
    and no unknown field is accepted whatever the types of its values, the
    omitted fields taking their defaults.  Whenever the load returns
    normally, the catalog and the log it leaves are those of the document,
    whatever the manager held before. *)
Theorem load_from_file_checks now prior :
  (forall d items key kw field,
      dict_get "images" d = Some (JDict items) ->
      (key, JDict kw) ∈ items ->
      field ∈ ["id"; "path"; "name"] -> dict_get field kw = None ->
      exists s', load_from_file (Some (JDict d)) now prior = (inl TypeError, s'))
  /\ (forall d hs kw field,
        dict_get "history" d = Some (JList hs) ->
        JDict kw ∈ hs ->
        field ∈ MatchRecord_fields -> dict_get field kw = None ->
        exists e s',
          load_from_file (Some (JDict d)) now prior = (inl e, s')
          /\ (e = TypeError \/ e = AttributeError))
  /\ (forall d,
        dict_get "images" d = None -> dict_get "history" d = None ->
        load_from_file (Some (JDict d)) now prior
        = (inr tt, {| obj_images := []; obj_history := [] |}))
  /\ (forall kw i p n,
        dict_get "id" kw = Some i -> dict_get "path" kw = Some p ->
        dict_get "name" kw = Some n ->
        unexpected_keyword ImageRecord_fields kw = false ->
        ImageRecord_new (JDict kw) now
        = inr {| o_id := i; o_path := p; o_name := n;
                 o_rating := default (JFloat DEFAULT_ELO) (dict_get "rating" kw);
                 o_wins := default (JInt 0) (dict_get "wins" kw);
                 o_losses := default (JInt 0) (dict_get "losses" kw);
                 o_draws := default (JInt 0) (dict_get "draws" kw);
                 o_matches := default (JInt 0) (dict_get "matches" kw);
                 o_added_at := default (JStr now) (dict_get "added_at" kw) |})
  /\ (forall data s',
        load_from_file (Some data) now prior = (inr tt, s') ->
        forall prior', load_from_file (Some data) now prior' = (inr tt, s')).
Proof.
  split; [|split; [|split; [|split]]].
  - intros d items key kw field Himages Hin Hfield Hmissing.
    rewrite load_from_file_run. cbn [json_get]. rewrite Himages.
    cbn [default from_option]. unfold Datatypes.id. cbn [json_items].
    destruct (build_images_fails now items [] (key, JDict kw) Hin) as [partial ->].
    + by eapply ImageRecord_new_missing.
    + eauto.
  - intros d hs kw field Hhistory Hin Hfield Hmissing.
    rewrite load_from_file_run. cbn [json_get]. rewrite Hhistory.
    destruct (json_items _) as [e|items] eqn:Hitems.
    { assert (e = AttributeError) as ->
        by (unfold json_items in Hitems; repeat case_match; by simplify_eq).
      eauto. }
    destruct (build_images now items []) as [[e partial]|imgs] eqn:Hbuild.
    { apply build_images_error in Hbuild as ->. eauto. }
    cbn [default from_option]. unfold Datatypes.id. cbn [json_iter].
    rewrite (map_raise_fails hs (JDict kw) Hin)
      by (by eapply MatchRecord_new_missing).
    eauto.
  - intros d Himages Hhistory. rewrite load_from_file_run. cbn [json_get].
    by rewrite Himages, Hhistory.
  - intros kw i p n Hi Hp Hn Hkw. unfold ImageRecord_new.
    by rewrite Hkw, Hi, Hp, Hn.
  - intros data s' Hload prior'. rewrite load_from_file_run in Hload |- *.
    repeat case_match; by simplify_eq.
Qed.

Lemma load_from_file_checks_witness :
  exists s',
    load_from_file (Some pathless_document) "t9" (manager_obj two_images)
    = (inl TypeError, s').
Proof.
  destruct (load_from_file_checks "t9" (manager_obj two_images)) as [Himg _].
  apply (Himg _ [("x", JDict [("id", JStr "x"); ("name", JStr "n")])]
              "x" [("id", JStr "x"); ("name", JStr "n")] "path").
  - reflexivity.
  - left.
  - right. left.
  - reflexivity.
Defined.

(** ** More on sessions *)

Lemma dict_keys_del {V} key (d : dict V) :
  dict_keys (dict_del key d) = filter (fun k => k <> key) (dict_keys d).
Proof.
  unfold dict_keys, dict_del. induction d as [|[k v] d IH]; [done|].
  rewrite fmap_cons, !filter_cons. cbn [fst].
  case_decide; [rewrite fmap_cons|]; by rewrite IH.
Qed.

Lemma dict_keys_fmap_values {V} (f : V -> V) (d : dict V) :
  dict_keys (prod_map (fun key => key) f <$> d) = dict_keys d.
Proof.
  unfold dict_keys. rewrite <- list_fmap_compose.
  apply list_fmap_ext. by intros i [k v] _.
Qed.

Lemma keyed_by_id_mutate key f d :
  (forall r, id (f r) = id r) ->
  keyed_by_id d -> keyed_by_id (dict_mutate key f d).
Proof.
  intros Hf. unfold keyed_by_id, dict_mutate. rewrite Forall_fmap.
  intros Hd. eapply Forall_impl; [exact Hd|].
  intros [k r] Hk. cbn in *. case_decide; cbn; [by rewrite Hf|done].
Qed.

Lemma record_match_entry s a_id b_id result now :
  dict_in a_id (ImageManager.images s) = true ->
  dict_in b_id (ImageManager.images s) = true ->
  exists imgs e,
    ImageManager.record_match a_id b_id result now s
    = (inr tt,
       {| ImageManager.images := imgs;
          ImageManager.history :=
            take (Z.to_nat MATCH_HISTORY_LIMIT) (e :: ImageManager.history s) |})
    /\ dict_keys imgs = dict_keys (ImageManager.images s)
    /\ (keyed_by_id (ImageManager.images s) -> keyed_by_id imgs)
    /\ entry_refers_to (dict_keys (ImageManager.images s)) e.
Proof.
  intros Ha Hb.
  apply dict_in_true in Ha as [a Ha]. apply dict_in_true in Hb as [b Hb].
  pose proof (dict_get_Some_key _ _ _ Ha) as Hka.
  pose proof (dict_get_Some_key _ _ _ Hb) as Hkb.
  pose proof (apply_stats_run a_id b_id result s) as Hst.
  assert (forall f, f = ImageManager.incr_wins \/ f = ImageManager.incr_losses
                    \/ f = ImageManager.incr_draws
                    \/ f = ImageManager.incr_matches
                    \/ (exists v, f = set_rating v) ->
                    forall r, id (f r) = id r) as Hid.
  { intros f [->|[->|[->|[->|[v ->]]]]] r; reflexivity. }
  repeat case_decide;
    pose proof (record_match_run _ _ _ now _ _ _ _ _ Ha Hb Hst) as Hrun;
    cbn [ImageManager.images ImageManager.history ImageManager.set_images
         fst snd] in Hrun;
    do 2 eexists; (split; [exact Hrun|]);
    (split; [by rewrite !dict_keys_mutate|]);
    (split; [intros Hkeyed; repeat (apply keyed_by_id_mutate; [apply Hid; eauto 10|]);
             exact Hkeyed|]);
    unfold entry_refers_to, ImageManager.new_record;
    cbn [winner_id loser_id draw];
    (split; [intros ? [= <-]; done|]);
    (split; [intros ? [= <-]; done|]);
    (split; [done|]);
    intros Hd%bool_decide_eq_true; try done; lra.
Qed.

Section session_more.
Variables (abspath basename : string -> string) (hash : string -> Z).

Lemma entry_refers_to_mono keys keys' h :
  (forall key, key ∈ keys -> key ∈ keys') ->
  entry_refers_to keys h -> entry_refers_to keys' h.
Proof.
  unfold entry_refers_to. intros Hsub (Hw & Hl & Hwl & Hd).
  repeat split; auto; apply Hwl.
Qed.

Lemma after_register s p e now :
  after abspath basename hash s (Register p e now) = s
  \/ exists uid rec,
      dict_get uid (ImageManager.images s) = None /\ id rec = uid
      /\ after abspath basename hash s (Register p e now)
         = {| ImageManager.images := ImageManager.images s ++ [(uid, rec)];
              ImageManager.history := ImageManager.history s |}.
Proof.
  unfold after. cbn [perform]. unfold mbind, Py_bind.
  destruct (add_image_state abspath basename hash s p e now)
    as [Heq|(uid & rec & Hfresh & _ & Hid & Heq)];
    destruct (ImageManager.add_image abspath basename hash p e now s)
      as [[?|?] s']; cbn [snd] in *; subst s'; try (by left);
    right; exists uid, rec; rewrite (dict_set_fresh _ _ _ Hfresh); done.
Qed.

Lemma after_well_formed s o :
  well_formed s -> well_formed (after abspath basename hash s o).
Proof.
  intros (Hwf & Hkeyed & Hlog).
  destruct o as [p e now|a b result now|i|c].
  - destruct (after_register s p e now)
      as [->|(uid & rec & Hfresh & Hid & ->)]; [done|].
    unfold well_formed. cbn [ImageManager.images ImageManager.history].
    split; [|split].
    + unfold dict_wf, dict_keys in *. rewrite fmap_app.
      apply NoDup_app. split; [done|]. split; [|apply NoDup_singleton].
      intros key Hin [->|[]%elem_of_nil]%elem_of_cons.
      by apply dict_get_None in Hfresh.
    + unfold keyed_by_id. apply Forall_app. split; [done|].
      by apply Forall_singleton.
    + eapply Forall_impl; [exact Hlog|]. intros h.
      apply entry_refers_to_mono. intros key Hkey.
      unfold dict_keys. rewrite fmap_app. apply elem_of_app. by left.
  - unfold after, well_formed. cbn [perform].
    destruct (dict_in a (ImageManager.images s)
              && dict_in b (ImageManager.images s)) eqn:Hin.
    + apply andb_true_iff in Hin as [Ha Hb].
      destruct (record_match_entry s a b result now Ha Hb)
        as (imgs & e0 & -> & Hkeys & Hk & He).
      cbn [snd ImageManager.images ImageManager.history].
      split; [unfold dict_wf; by rewrite Hkeys|]. split; [by apply Hk|].
      rewrite Hkeys. apply Forall_forall. intros h Hh.
      assert (h ∈ e0 :: ImageManager.history s) as Hh'.
      { by eapply subseteq_take. }
      apply elem_of_cons in Hh' as [->|Hh']; [done|].
      rewrite Forall_forall in Hlog. by apply Hlog.
    + rewrite record_match_raises by done. done.
  - unfold after, well_formed. cbn [perform].
    rewrite remove_image_state. cbn [snd].
    destruct (dict_in i (ImageManager.images s)); [|done].
    cbn [ImageManager.images ImageManager.history].
    split; [unfold dict_wf; rewrite dict_keys_del; by apply NoDup_filter|].
    split.
    { unfold keyed_by_id, dict_del. rewrite Forall_forall.
      intros kv [_ Hkv]%list_elem_of_filter.
      unfold keyed_by_id in Hkeyed. rewrite Forall_forall in Hkeyed. auto. }
    rewrite dict_keys_del. apply Forall_forall.
    intros h [[Hw Hl] Hh]%list_elem_of_filter.
    rewrite Forall_forall in Hlog. destruct (Hlog h Hh) as (H1 & H2 & H3 & H4).
    unfold entry_refers_to.
    split; [|split; [|done]]; intros key Hkey; apply list_elem_of_filter;
      (split; [congruence|auto]).
  - unfold after, well_formed. cbn [perform].
    rewrite ui_reset_ratings_state. cbn [snd].
    destruct (ImageManager.images s) as [|kv d] eqn:Hd;
      [by rewrite Hd|].
    destruct c; [|by rewrite Hd].
    cbn [ImageManager.images ImageManager.history].
    split; [unfold dict_wf; by rewrite dict_keys_fmap_values|].
    split; [|constructor].
    unfold keyed_by_id in *. rewrite Forall_fmap.
    eapply Forall_impl; [exact Hkeyed|]. by intros [k r].
Qed.

(** X5.  After every sequence of register, record-match, remove and reset
    operations run from the empty manager, no id is stored twice, every
    record is stored under its own [id], and every log entry names only ids
    that are still in the catalog, has a winner exactly when it has a loser,
    and has neither when it is flagged as a draw. *)
Theorem session_well_formed (ops : list op) :
  let s := run abspath basename hash ops in
  dict_wf (ImageManager.images s)
  /\ keyed_by_id (ImageManager.images s)
  /\ Forall (entry_refers_to (dict_keys (ImageManager.images s)))
            (ImageManager.history s).
Proof.
  apply (run_invariant abspath basename hash well_formed).
  - repeat split; constructor.
  - apply after_well_formed.
Qed.

End session_more.

(** ** Registration *)

Lemma dict_get_set {V} key key' (v : V) (d : dict V) :
  dict_get key (dict_set key' v d)
  = if decide (key = key') then Some v else dict_get key d.
Proof.
  induction d as [|[k w] d IH]; cbn [dict_set dict_get].
  - repeat case_decide; by simplify_eq.
  - repeat (case_decide; simplify_eq; cbn [dict_get]); try done;
      rewrite ?IH; repeat (case_decide; simplify_eq); done.
Qed.

Section registration.
Variables (abspath basename : string -> string) (hash : string -> Z).

(** X6.  [add_image] on a path that does not exist returns [None] and
    changes nothing.  Otherwise it returns the record stored under the id
    of the path: a second registration of the same path returns the
    same record and leaves the manager as the first left it (the
    [added_at] of the first registration is kept).  A registration never
    touches the log or the records under other ids, and the id list
    afterwards is the old one, with the new id appended when it was not
    there. *)
Theorem add_image_idempotent s p now now' :
  let uid := ImageManager._make_id abspath hash p in
  let r := ImageManager.add_image abspath basename hash p true now s in
  ImageManager.add_image abspath basename hash p false now s = (inr None, s)
  /\ (exists rec, r.1 = inr (Some rec)
                  /\ dict_get uid (ImageManager.images r.2) = Some rec)
  /\ ImageManager.add_image abspath basename hash p true now' r.2 = r
  /\ ImageManager.history r.2 = ImageManager.history s
  /\ (forall key, key <> uid ->
        dict_get key (ImageManager.images r.2)
        = dict_get key (ImageManager.images s))
  /\ dict_keys (ImageManager.images r.2)
     = (if dict_in uid (ImageManager.images s)
        then dict_keys (ImageManager.images s)
        else dict_keys (ImageManager.images s) ++ [uid]).
Proof.
  intros uid r. subst r. split; [reflexivity|].
  unfold ImageManager.add_image. cbn [negb]. fold uid.
  unfold mbind, Py_bind, gets, dict_in.
  destruct (dict_get uid (ImageManager.images s)) as [rec|] eqn:Hget.
  - unfold mret, Py_ret. cbn [fst snd]. rewrite Hget.
    repeat split; eauto.
  - unfold modify, mret, Py_ret, ImageManager.set_images.
    cbn [fst snd ImageManager.images ImageManager.history].
    rewrite dict_get_set, decide_True by done.
    split; [eauto|]. split; [reflexivity|]. split; [reflexivity|].
    split.
    + intros key Hne. by rewrite dict_get_set, decide_False.
    + rewrite dict_keys_set. unfold dict_in. by rewrite Hget.
Qed.

End registration.

(** ** More on recording a match *)

Lemma fmap_mutated {A} (proj : ImageRecord -> A) (key key' : string) f
    (x : option ImageRecord) :
  (forall r, proj (f r) = proj r) ->
  proj <$> (if decide (key = key') then f <$> x else x) = proj <$> x.
Proof. intros Hf. case_decide; [|done]. destruct x; cbn; by rewrite ?Hf. Qed.

(** X7.  [record_match], whether it returns or raises, never adds, removes
    or reorders items, leaves every item other than the two named untouched,
    and never changes the id, path, name or added_at of any item. *)
Theorem record_match_frame s a_id b_id result now :
  let s' := (ImageManager.record_match a_id b_id result now s).2 in
  dict_keys (ImageManager.images s') = dict_keys (ImageManager.images s)
  /\ (forall key, key <> a_id -> key <> b_id ->
        dict_get key (ImageManager.images s')
        = dict_get key (ImageManager.images s))
  /\ (forall key,
        id <$> dict_get key (ImageManager.images s')
        = id <$> dict_get key (ImageManager.images s)
        /\ path <$> dict_get key (ImageManager.images s')
           = path <$> dict_get key (ImageManager.images s)
        /\ name <$> dict_get key (ImageManager.images s')
           = name <$> dict_get key (ImageManager.images s)
        /\ added_at <$> dict_get key (ImageManager.images s')
           = added_at <$> dict_get key (ImageManager.images s)).
Proof.
  intros s'. subst s'.
  destruct (record_match_state s a_id b_id result now)
    as [[_ ->]|(_ & _ & ra & rb & k1 & k2 & f1 & f2 & e & Hk & Hf & _ & ->)];
    [done|].
  cbn [snd ImageManager.images].
  split; [by rewrite !dict_keys_mutate|]. split.
  - intros key Ha Hb. rewrite !dict_get_mutate.
    destruct Hk as [[-> ->]|[-> ->]]; by rewrite !decide_False by done.
  - intros key. rewrite !dict_get_mutate.
    destruct Hf as [[-> ->]|[-> ->]];
      (repeat split; by rewrite !fmap_mutated by done).
Qed.






(** ** Ranking *)

Section ranking_facts.
Context {A : Type} (key : A -> R).

Lemma insert_desc_sorted x l :
  StronglySorted (fun y z => key z <= key y) l ->
  StronglySorted (fun y z => key z <= key y) (insert_desc key x l).
Proof.
  induction l as [|y l IH]; cbn; intros Hl.
  - repeat constructor.
  - apply StronglySorted_inv in Hl as [Hl Hy]. case_decide.
    + constructor; [by constructor|]. constructor; [done|].
      eapply Forall_impl; [exact Hy|]. intros z Hz. cbn in *. lra.
    + constructor; [by apply IH|].
      rewrite insert_desc_Permutation. constructor; [|done]. lra.
Qed.

Lemma sort_desc_sorted l :
  StronglySorted (fun y z => key z <= key y) (sort_desc key l).
Proof.
  induction l as [|x l IH]; cbn; [constructor|]. by apply insert_desc_sorted.
Qed.

Lemma insert_desc_filter v x l :
  filter (fun y => key y = v) (insert_desc key x l)
  = filter (fun y => key y = v) (x :: l).
Proof.
  induction l as [|y l IH]; [done|]. cbn [insert_desc].
  case_decide as Hle; [done|].
  rewrite filter_cons, IH, !filter_cons.
  destruct (decide (key y = v)), (decide (key x = v)); try done. lra.
Qed.

Lemma sort_desc_filter v l :
  filter (fun y => key y = v) (sort_desc key l)
  = filter (fun y => key y = v) l.
Proof.
  induction l as [|x l IH]; [done|]. cbn [sort_desc foldr].
  fold (sort_desc key l). rewrite insert_desc_filter, !filter_cons.
  by rewrite IH.
Qed.

End ranking_facts.

(** X10.  [ranking()] lists every record of the catalog exactly once, by
    descending rating, and records with equal ratings keep the order in
    which they are stored. *)
Theorem ranking_sorted_stable s :
  ImageManager.ranking s ≡ₚ dict_values (ImageManager.images s)
  /\ StronglySorted (fun x y => rating y <= rating x) (ImageManager.ranking s)
  /\ forall v,
       filter (fun r => rating r = v) (ImageManager.ranking s)
       = filter (fun r => rating r = v) (dict_values (ImageManager.images s)).
Proof.
  unfold ImageManager.ranking. split; [apply sort_desc_Permutation|].
  split; [apply sort_desc_sorted|]. intros v. apply sort_desc_filter.
Qed.

(** ** Failed loads and resets *)

Lemma build_images_app now l1 l2 acc :
  build_images now (l1 ++ l2) acc
  = match build_images now l1 acc with
    | inr acc' => build_images now l2 acc'
    | inl err => inl err
    end.
Proof.
  revert acc. induction l1 as [|item l1 IH]; intros acc; [done|].
  cbn [app build_images]. by destruct (ImageRecord_new item.2 now).
Qed.

(** X11.  A failed [load_from_file] is not undone.  A missing file raises
    [FileNotFoundError] and changes nothing; but a document that is not an
    object raises [AttributeError] after the catalog has been emptied, an
    image that is rejected raises [TypeError] and leaves the catalog holding
    the images accepted before it, and a rejected history entry leaves the
    new catalog in place; in all three cases the old log is kept. *)
Theorem load_from_file_not_atomic now prior :
  load_from_file None now prior = (inl FileNotFoundError, prior)
  /\ (forall data, (forall d, data <> JDict d) ->
        load_from_file (Some data) now prior
        = (inl AttributeError,
           {| obj_images := []; obj_history := obj_history prior |}))
  /\ (forall d accepted item rest acc e,
        dict_get "images" d = Some (JDict (accepted ++ item :: rest)) ->
        build_images now accepted [] = inr acc ->
        ImageRecord_new item.2 now = inl e ->
        load_from_file (Some (JDict d)) now prior
        = (inl TypeError,
           {| obj_images := acc; obj_history := obj_history prior |}))
  /\ (forall d items imgs hs e,
        dict_get "images" d = Some (JDict items) ->
        build_images now items [] = inr imgs ->
        dict_get "history" d = Some (JList hs) ->
        map_raise MatchRecord_new hs = inl e ->
        load_from_file (Some (JDict d)) now prior
        = (inl TypeError,
           {| obj_images := imgs; obj_history := obj_history prior |})).
Proof.
  split; [reflexivity|]. split; [|split].
  - intros data Hdata. rewrite load_from_file_run.
    destruct data; try reflexivity. by destruct (Hdata d).
  - intros d accepted item rest acc e Himages Hacc Hitem.
    rewrite load_from_file_run. cbn [json_get]. rewrite Himages.
    cbn [default from_option]. unfold Datatypes.id. cbn [json_items].
    rewrite build_images_app, Hacc. cbn [build_images]. rewrite Hitem.
    by apply ImageRecord_new_error in Hitem as ->.
  - intros d items imgs hs e Himages Hbuild Hhistory Hhs.
    rewrite load_from_file_run. cbn [json_get]. rewrite Himages, Hhistory.
    cbn [default from_option]. unfold Datatypes.id. cbn [json_items json_iter].
    rewrite Hbuild, Hhs.
    assert (e = TypeError) as ->; [|done].
    clear -Hhs. revert e Hhs. induction hs as [|h hs IH]; intros e; [done|].
    cbn [map_raise]. destruct (MatchRecord_new h) as [e'|o] eqn:Hh.
    + intros [= <-]. by eapply MatchRecord_new_error.
    + destruct (map_raise MatchRecord_new hs) as [e'|objs]; [|done].
      intros [= <-]. by apply IH.
Qed.

Lemma load_from_file_not_atomic_witness :
  exists o,
    load_from_file (Some (JDict half_good_document)) "t9"
      (manager_obj drawn_images)
    = (inl TypeError,
       {| obj_images := [("x", o)];
          obj_history := [MatchRecord_obj draw_entry] |}).
Proof.
  destruct (load_from_file_not_atomic "t9" (manager_obj drawn_images))
    as (_ & _ & Himg & _).
  eexists.
  apply (Himg half_good_document [("x", good_image)] ("y", pathless_image) []
           _ TypeError); reflexivity.
Defined.

Lemma dict_get_fmap_values {V} (f : V -> V) key (d : dict V) :
  dict_get key (prod_map (fun key => key) f <$> d) = f <$> dict_get key d.
Proof.
  induction d as [|[k v] d IH]; [done|].
  rewrite fmap_cons. cbn [prod_map fst snd dict_get]. by case_decide.
Qed.

(** X12.  [ui_reset_ratings] does nothing when the dialog is declined and
    nothing when the catalog is empty (a log that is not empty then stays).
    Confirmed on a catalog that is not empty, it empties the log and gives
    every record the rating 1000 and counters 0, keeping the ids, their
    order, and each record's id, path, name and added_at. *)
Theorem ui_reset_ratings_effect s :
  EloVotingApp.ui_reset_ratings false s = (inr tt, s)
  /\ (forall confirmed,
        ImageManager.images s = [] ->
        EloVotingApp.ui_reset_ratings confirmed s = (inr tt, s))
  /\ (ImageManager.images s <> [] ->
      exists s',
        EloVotingApp.ui_reset_ratings true s = (inr tt, s')
        /\ ImageManager.history s' = []
        /\ dict_keys (ImageManager.images s') = dict_keys (ImageManager.images s)
        /\ forall key r,
             dict_get key (ImageManager.images s) = Some r ->
             dict_get key (ImageManager.images s')
             = Some {| id := id r; path := path r; name := name r;
                       rating := 1000; wins := 0; losses := 0; draws := 0;
                       matches := 0; added_at := added_at r |}).
Proof.
  split; [rewrite ui_reset_ratings_state; by destruct (ImageManager.images s)|].
  split.
  - intros confirmed Hempty. rewrite ui_reset_ratings_state. by rewrite Hempty.
  - intros Hne. rewrite ui_reset_ratings_state.
    destruct (ImageManager.images s) as [|kv d] eqn:Hd; [done|].
    eexists. split; [reflexivity|]. cbn [ImageManager.images ImageManager.history].
    split; [done|]. split; [apply dict_keys_fmap_values|].
    intros key r Hr. by rewrite dict_get_fmap_values, Hr.
Qed.

Lemma ui_reset_ratings_effect_witness :
  ImageManager.images drawn_images <> []
  /\ exists s',
       EloVotingApp.ui_reset_ratings true drawn_images = (inr tt, s')
       /\ ImageManager.history s' = [].
Proof.
  assert (ImageManager.images drawn_images <> []) as Hne by discriminate.
  split; [exact Hne|].
  destruct (ui_reset_ratings_effect drawn_images) as (_ & _ & Hreset).
  destruct (Hreset Hne) as (s' & Hrun & Hlog & _).
  exists s'. by split.
Defined.

(** ** The viewer *)

Lemma zoom_clamped factor v :
  0.1 <= ImageViewer.zoom (ImageViewer._zoom factor v) <= 10.
Proof.
  unfold ImageViewer._zoom. cbn [ImageViewer.zoom].
  repeat case_decide; lra.
Qed.

Lemma act_in_range v a :
  0.1 <= ImageViewer.zoom v <= 10 /\ (0 <= ImageViewer.angle v < 360)%Z ->
  0.1 <= ImageViewer.zoom (ImageViewer.act v a) <= 10
  /\ (0 <= ImageViewer.angle (ImageViewer.act v a) < 360)%Z.
Proof.
  intros [Hz Ha]. destruct a as [factor|deg| |event]; cbn [ImageViewer.act].
  - split; [apply zoom_clamped|done].
  - split; [done|]. cbn. apply Z.mod_pos_bound. lia.
  - cbn. split; [lra|lia].
  - unfold ImageViewer._on_wheel. case_decide;
      (split; [apply zoom_clamped|done]).
Qed.

(** X13.  Whatever the user does in a viewer window (zoom by any factor,
    rotate by any number of degrees, reset, turn the wheel), the zoom stays
    between 0.1 and 10 and the angle between 0 and 359; a single [_zoom]
    brings any zoom into that range. *)
Theorem viewer_in_range (actions : list ImageViewer.action) :
  let v := foldl ImageViewer.act ImageViewer.init actions in
  (0.1 <= ImageViewer.zoom v <= 10 /\ (0 <= ImageViewer.angle v < 360)%Z)
  /\ forall factor v0,
       0.1 <= ImageViewer.zoom (ImageViewer._zoom factor v0) <= 10.
Proof.
  intros v. split; [|intros; apply zoom_clamped]. subst v.
  assert (0.1 <= ImageViewer.zoom ImageViewer.init <= 10
          /\ (0 <= ImageViewer.angle ImageViewer.init < 360)%Z) as Hinit
    by (cbn; split; [lra|lia]).
  revert Hinit. generalize ImageViewer.init.
  induction actions as [|a actions IH]; intros v Hv; [done|].
  cbn [foldl]. apply IH. by apply act_in_range.
Qed.

(** X14.  Rotations add up modulo 360: rotating by [d1] and then by [d2] is
    rotating by [d1 + d2]; so on a viewer whose angle is in range a
    rotation by a multiple of 360, and a rotation followed by the opposite
    one, change nothing. *)
Theorem rotate_compose v d1 d2 :
  ImageViewer._rotate d2 (ImageViewer._rotate d1 v)
  = ImageViewer._rotate (d1 + d2) v
  /\ ((0 <= ImageViewer.angle v < 360)%Z ->
      (forall n, ImageViewer._rotate (360 * n) v = v)
      /\ ImageViewer._rotate (- d1) (ImageViewer._rotate d1 v) = v).
Proof.
  assert (forall a b, ImageViewer._rotate b (ImageViewer._rotate a v)
                      = ImageViewer._rotate (a + b) v) as Hadd.
  { intros a b. unfold ImageViewer._rotate.
    cbn [ImageViewer.zoom ImageViewer.angle]. f_equal.
    rewrite Zplus_mod_idemp_l. f_equal. lia. }
  assert ((0 <= ImageViewer.angle v < 360)%Z ->
          forall n, ImageViewer._rotate (360 * n) v = v) as Hturn.
  { intros Hv n. destruct v as [z a]. unfold ImageViewer._rotate.
    cbn [ImageViewer.zoom ImageViewer.angle] in *. f_equal.
    rewrite Z.mul_comm, Z_mod_plus_full. by apply Z.mod_small. }
  split; [apply Hadd|]. intros Hv. split; [by apply Hturn|].
  rewrite Hadd. replace (d1 + - d1)%Z with (360 * 0)%Z by lia. by apply Hturn.
Qed.

Lemma rotate_compose_witness :
  (0 <= ImageViewer.angle ImageViewer.init < 360)%Z
  /\ ImageViewer._rotate (-90) (ImageViewer._rotate 90 ImageViewer.init)
     = ImageViewer.init.
Proof.
  assert (0 <= ImageViewer.angle ImageViewer.init < 360)%Z as Hv
    by (cbn; lia).
  split; [exact Hv|].
  destruct (rotate_compose ImageViewer.init 90 0) as [_ Hrange].
  destruct (Hrange Hv) as [_ Hback]. exact Hback.
Defined.

(** ** The drag-and-drop parser *)

Lemma string_app_cons c (s1 s2 : string) :
  String c s1 +:+ s2 = String c (s1 +:+ s2).
Proof. reflexivity. Qed.

Lemma string_app_assoc (s1 s2 s3 : string) :
  (s1 +:+ s2) +:+ s3 = s1 +:+ (s2 +:+ s3).
Proof.
  induction s1 as [|c s1 IH]; [done|]. by rewrite !string_app_cons, IH.
Qed.

Lemma string_app_nil_r (s : string) : s +:+ "" = s.
Proof. induction s as [|c s IH]; [done|]. by rewrite string_app_cons, IH. Qed.

Lemma dnd_loop_app s1 s2 st :
  Dnd.loop (s1 +:+ s2) st = Dnd.loop s2 (Dnd.loop s1 st).
Proof.
  revert st. induction s1 as [|c s1 IH]; intros st; [done|].
  rewrite string_app_cons. cbn [Dnd.loop]. apply IH.
Qed.

Lemma dnd_loop_in_brace name files cur :
  Dnd.braceable name ->
  Dnd.loop name (files, cur, true) = (files, cur +:+ name, true).
Proof.
  revert cur. induction name as [|c name IH]; intros cur [Ho Hc].
  - cbn. by rewrite string_app_nil_r.
  - cbn [Dnd.has_char] in Ho, Hc.
    apply orb_false_iff in Ho as [Ho1%bool_decide_eq_false Ho2].
    apply orb_false_iff in Hc as [Hc1%bool_decide_eq_false Hc2].
    cbn [Dnd.loop Dnd.step]. rewrite !decide_False by done.
    rewrite andb_false_r. rewrite IH by done.
    by rewrite string_app_assoc.
Qed.

Lemma dnd_loop_plain name files cur :
  Dnd.braceable name -> Dnd.has_char " " name = false ->
  Dnd.loop name (files, cur, false) = (files, cur +:+ name, false).
Proof.
  revert cur. induction name as [|c name IH]; intros cur [Ho Hc] Hs.
  - cbn. by rewrite string_app_nil_r.
  - cbn [Dnd.has_char] in Ho, Hc, Hs.
    apply orb_false_iff in Ho as [Ho1%bool_decide_eq_false Ho2].
    apply orb_false_iff in Hc as [Hc1%bool_decide_eq_false Hc2].
    apply orb_false_iff in Hs as [Hs1 Hs2].
    cbn [Dnd.loop Dnd.step]. rewrite !decide_False by done.
    rewrite Hs1. cbn [andb]. rewrite IH by done.
    by rewrite string_app_assoc.
Qed.

Lemma dnd_loop_braced name files cur in_brace :
  Dnd.braceable name ->
  Dnd.loop (Dnd.braced name) (files, cur, in_brace)
  = (files ++ [name], "", false).
Proof.
  intros Hname.
  change (Dnd.braced name) with (String "{" (name +:+ "}")).
  cbn [Dnd.loop Dnd.step].
  rewrite decide_True by done. rewrite dnd_loop_app.
  rewrite dnd_loop_in_brace by done.
  change ("" +:+ name) with name. cbn [Dnd.loop Dnd.step].
  rewrite decide_False by done. by rewrite decide_True.
Qed.

Lemma dnd_loop_space files cur :
  Dnd.loop " " (files, cur, false)
  = if decide (cur <> "") then (files ++ [cur], "", false)
    else (files, cur, false).
Proof. reflexivity. Qed.

Lemma dnd_loop_token (item : bool * string) files :
  Dnd.droppable item ->
  Dnd.loop (Dnd.token item +:+ " ") (files, "", false)
  = (files ++ [item.2], "", false).
Proof.
  unfold Dnd.droppable, Dnd.token.
  destruct item as [[] name]; cbn [fst snd]; intros Hok;
    rewrite dnd_loop_app.
  - rewrite dnd_loop_braced by done. rewrite dnd_loop_space.
    by rewrite decide_False by (by intros ?).
  - destruct Hok as (Hb & Hs & Hne). rewrite dnd_loop_plain by done.
    change ("" +:+ name) with name. rewrite dnd_loop_space.
    by rewrite decide_True.
Qed.

Lemma dnd_loop_join items files :
  Forall Dnd.droppable items ->
  exists f cur,
    Dnd.loop (Dnd.join (Dnd.token <$> items)) (files, "", false)
    = (f, cur, false)
    /\ (if decide (cur <> "") then f ++ [cur] else f) = files ++ items.*2.
Proof.
  revert files. induction items as [|item [|item' items] IH];
    intros files Hok.
  - exists files, "". split; [done|]. by rewrite app_nil_r.
  - apply Forall_cons in Hok as [Hitem _].
    cbn [fmap list_fmap Dnd.join].
    destruct item as [[] name]; unfold Dnd.droppable, Dnd.token in *;
      cbn [fst snd] in *.
    + exists (files ++ [name]), "". split; [by apply dnd_loop_braced|].
      by rewrite decide_False by (by intros ?).
    + destruct Hitem as (Hb & Hs & Hne). exists files, name.
      split; [by apply dnd_loop_plain|]. by rewrite decide_True.
  - apply Forall_cons in Hok as [Hitem Hok].
    change (Dnd.join (Dnd.token <$> item :: item' :: items))
      with (Dnd.token item +:+ " " +:+ Dnd.join (Dnd.token <$> item' :: items)).
    rewrite <- string_app_assoc, dnd_loop_app, dnd_loop_token by done.
    destruct (IH (files ++ [item.2]) Hok) as (f & cur & -> & Hres).
    exists f, cur. split; [done|]. rewrite Hres.
    by rewrite <- app_assoc.
Qed.

(** X15.  The drop parser gives back the names it was sent: for names
    joined by single spaces, each either enclosed in braces (and then free
    of braces, but possibly empty or with spaces) or written plain (and
    then not empty and free of spaces and braces), the parsed list is the
    list of names, in order. *)
Theorem dnd_parse_roundtrip (items : list (bool * string)) :
  Forall Dnd.droppable items ->
  Dnd.parse (Dnd.join (Dnd.token <$> items)) = items.*2.
Proof.
  intros Hok. unfold Dnd.parse.
  destruct (dnd_loop_join items [] Hok) as (f & cur & -> & Hres).
  exact Hres.
Qed.

Lemma dnd_parse_roundtrip_witness :
  Forall Dnd.droppable sample_drop
  /\ Dnd.parse "{my cat.png} dog.jpg" = ["my cat.png"; "dog.jpg"].
Proof.
  assert (Forall Dnd.droppable sample_drop) as Hok
    by (repeat constructor; discriminate).
  split; [exact Hok|]. exact (dnd_parse_roundtrip sample_drop Hok).
Defined.

(** X16.  Edge cases of the drop parser: text that runs straight into an
    opening brace is dropped, a name whose brace is never closed is still
    delivered, and a leading space is ignored. *)
Theorem dnd_parse_edges :
  (forall pre name,
      Dnd.braceable pre -> Dnd.has_char " " pre = false ->
      Dnd.braceable name ->
      Dnd.parse (pre +:+ Dnd.braced name) = [name])
  /\ (forall name,
        Dnd.braceable name -> name <> "" ->
        Dnd.parse ("{" +:+ name) = [name])
  /\ (forall data, Dnd.parse (" " +:+ data) = Dnd.parse data).
Proof.
  split; [|split].
  - intros pre name Hpre Hspace Hname. unfold Dnd.parse.
    rewrite dnd_loop_app, dnd_loop_plain, dnd_loop_braced by done.
    by rewrite decide_False by (by intros ?).
  - intros name Hname Hne. unfold Dnd.parse.
    change ("{" +:+ name) with (String "{" name).
    cbn [Dnd.loop Dnd.step]. rewrite decide_True by done.
    rewrite dnd_loop_in_brace by done. change ("" +:+ name) with name.
    by rewrite decide_True.
  - intros data. unfold Dnd.parse. by rewrite dnd_loop_app.
Qed.

Lemma dnd_parse_edges_witness :
  Dnd.parse "lost{kept.png}" = ["kept.png"].
Proof.
  destruct dnd_parse_edges as [Hpre _].
  apply (Hpre "lost" "kept.png"); repeat split; reflexivity.
Defined.

(** ** Voting *)

Lemma vote_side_run side vote_type now i j keep app l r :
  Voting.current_pair app = Some (l, r) ->
  forall a b result,
    (vote_type = "win" /\ result = 1
       /\ (a, b) = (if decide (side = "left") then (l, r) else (r, l))
     \/ vote_type = "dislike" /\ result = 1
        /\ (b, a) = (if decide (side = "left") then (l, r) else (r, l))
     \/ vote_type = "neutral" /\ result = 0.5
        /\ (a, b) = (if decide (side = "left") then (l, r) else (r, l))) ->
    Voting._vote_side side vote_type now i j keep app
    = match ImageManager.record_match (id a) (id b) result now (Voting.im app)
      with
      | (inr _, im') =>
          (inr tt, Voting.ui_next_pair i j keep (Voting.set_im im' app))
      | (inl e, im') => (inl e, Voting.set_im im' app)
      end.
Proof.
  intros Hpair a b result Hvote.
  unfold Voting._vote_side, mbind, Py_bind, gets. rewrite Hpair.
  destruct Hvote as [(-> & -> & Hab)|[(-> & -> & Hab)|(-> & -> & Hab)]];
    destruct (decide (side = "left")); simplify_eq;
    repeat first [rewrite decide_True by done | rewrite decide_False by done];
    unfold Voting.on_im, modify, mbind, Py_bind; cbv beta;
    destruct (ImageManager.record_match _ _ _ _ _) as [[?|[]] ?];
    reflexivity.
Qed.

(** X17.  A dislike is recorded as a win of the other image: whatever the
    state, disliking the left image does exactly what voting for the right
    one does, and the other way round; with a pair on display the manager
    is left as [record_match] of the other image's id against the disliked
    one's, with result [1.0], leaves it. *)
Theorem vote_dislike_is_other_win now i j keep app :
  Voting._vote_side "left" "dislike" now i j keep app
  = Voting._vote_side "right" "win" now i j keep app
  /\ Voting._vote_side "right" "dislike" now i j keep app
     = Voting._vote_side "left" "win" now i j keep app
  /\ (forall l r,
        Voting.current_pair app = Some (l, r) ->
        Voting.im (Voting._vote_side "left" "dislike" now i j keep app).2
        = (ImageManager.record_match (id r) (id l) 1 now (Voting.im app)).2).
Proof.
  destruct (Voting.current_pair app) as [[l r]|] eqn:Hpair.
  - rewrite (vote_side_run "left" "dislike" now i j keep app l r Hpair r l 1)
      by (right; left; done).
    rewrite (vote_side_run "right" "win" now i j keep app l r Hpair r l 1)
      by (left; done).
    rewrite (vote_side_run "right" "dislike" now i j keep app l r Hpair l r 1)
      by (right; left; done).
    rewrite (vote_side_run "left" "win" now i j keep app l r Hpair l r 1)
      by (left; done).
    repeat split. intros l' r' [= <- <-].
    destruct (ImageManager.record_match _ _ _ _ _) as [[?|?] im']; cbn [snd];
      [done|].
    unfold Voting.ui_next_pair. by repeat case_match.
  - unfold Voting._vote_side, mbind, Py_bind, gets. rewrite Hpair.
    by repeat split.
Qed.

Lemma vote_dislike_is_other_win_witness :
  Voting.current_pair cat_or_dog = Some (image0 cat, image0 dog)
  /\ Voting.im
       (Voting._vote_side "left" "dislike" "t1" 0 1 true cat_or_dog).2
     = (ImageManager.record_match dog cat 1 "t1" two_images).2.
Proof.
  split; [reflexivity|].
  destruct (vote_dislike_is_other_win "t1" 0 1 true cat_or_dog)
    as (_ & _ & Hleft).
  apply (Hleft (image0 cat) (image0 dog)). reflexivity.
Defined.

(** ** Swapped sides and neutral votes *)

Lemma im_ui_next_pair i j keep app :
  Voting.im (Voting.ui_next_pair i j keep app) = Voting.im app.
Proof. unfold Voting.ui_next_pair. by repeat case_match. Qed.

Lemma update_ratings_draw_swap self ra rb :
  (EloEngine.update_ratings self rb ra 0.5).1
  = (EloEngine.update_ratings self ra rb 0.5).2
  /\ (EloEngine.update_ratings self rb ra 0.5).2
     = (EloEngine.update_ratings self ra rb 0.5).1.
Proof. unfold EloEngine.update_ratings. cbn [fst snd]. split; f_equal; f_equal; lra. Qed.

Lemma record_match_draw_images s a_id b_id now :
  ImageManager.images (ImageManager.record_match a_id b_id 0.5 now s).2
  = ImageManager.images (ImageManager.record_match b_id a_id 0.5 now s).2.
Proof.
  destruct (decide (a_id = b_id)) as [->|Hne]; [done|].
  destruct (dict_get a_id (ImageManager.images s)) as [a|] eqn:Ha;
    [destruct (dict_get b_id (ImageManager.images s)) as [b|] eqn:Hb|].
  2,3: rewrite !record_match_raises
         by (unfold dict_in; rewrite ?Ha, ?Hb; by rewrite ?andb_false_r);
       done.
  pose proof (apply_stats_run a_id b_id 0.5 s) as Hst.
  pose proof (apply_stats_run b_id a_id 0.5 s) as Hst'.
  rewrite !decide_False in Hst, Hst' by lra.
  pose proof (record_match_run _ _ _ now _ _ _ _ _ Ha Hb Hst) as Hrun.
  pose proof (record_match_run _ _ _ now _ _ _ _ _ Hb Ha Hst') as Hrun'.
  cbn [ImageManager.images ImageManager.history ImageManager.set_images
       fst snd] in Hrun, Hrun'.
  destruct (update_ratings_draw_swap ImageManager.elo (rating a) (rating b))
    as [H1 H2].
  rewrite H1, H2 in Hrun'. rewrite Hrun, Hrun'. cbn [snd ImageManager.images].
  assert (b_id <> a_id) as Hne' by congruence.
  rewrite (dict_mutate_comm b_id a_id ImageManager.incr_draws
             ImageManager.incr_draws) by done.
  rewrite (dict_mutate_comm b_id a_id ImageManager.incr_matches
             ImageManager.incr_matches) by done.
  by rewrite (dict_mutate_comm b_id a_id (set_rating _) (set_rating _)).
Qed.

(** X19.  [ui_swap_pair] only exchanges the two sides of the pair on
    display: it never touches the manager, swapping twice restores the
    state, and a vote for the left image after a swap records what a vote of
    the same kind for the right image records without it. *)
Theorem ui_swap_pair_vote app :
  Voting.im (Voting.ui_swap_pair app) = Voting.im app
  /\ Voting.ui_swap_pair (Voting.ui_swap_pair app) = app
  /\ forall vote_type now i j keep,
       let swapped :=
         Voting._vote_side "left" vote_type now i j keep
           (Voting.ui_swap_pair app) in
       let direct := Voting._vote_side "right" vote_type now i j keep app in
       swapped.1 = direct.1 /\ Voting.im swapped.2 = Voting.im direct.2.
Proof.
  split; [|split].
  - unfold Voting.ui_swap_pair. by repeat case_match.
  - unfold Voting.ui_swap_pair. destruct app as [im [[l r]|] mode]; done.
  - intros vote_type now i j keep.
    unfold Voting.ui_swap_pair, Voting._vote_side, mbind, Py_bind, gets.
    destruct (Voting.current_pair app) as [[l r]|] eqn:Hpair;
      cbn [Voting.current_pair Voting.set_current_pair]; [|by rewrite Hpair].
    destruct (decide ("left" = "left")) as [_|?]; [|done].
    destruct (decide ("right" = "left")) as [?|_]; [done|].
    repeat case_decide; try done;
      unfold Voting.on_im, modify, mbind, Py_bind;
      cbn [Voting.im Voting.set_current_pair];
      destruct (ImageManager.record_match _ _ _ _ _) as [[?|[]] ?];
      cbn [fst snd]; rewrite ?im_ui_next_pair; done.
Qed.

(** X20.  A neutral vote does the same to the catalog whichever side it is
    cast on: both records gain a draw and a match and get the same new
    ratings.  (The log entries differ: the winner columns hold the ratings
    of the side voted on.) *)
Theorem vote_neutral_symmetric now i j keep app :
  let on_left := Voting._vote_side "left" "neutral" now i j keep app in
  let on_right := Voting._vote_side "right" "neutral" now i j keep app in
  on_left.1 = on_right.1
  /\ ImageManager.images (Voting.im on_left.2)
     = ImageManager.images (Voting.im on_right.2).
Proof.
  cbn zeta.
  destruct (Voting.current_pair app) as [[l r]|] eqn:Hpair.
  - rewrite (vote_side_run "left" "neutral" now i j keep app l r Hpair l r 0.5)
      by (right; right; done).
    rewrite (vote_side_run "right" "neutral" now i j keep app l r Hpair r l 0.5)
      by (right; right; done).
    pose proof (record_match_draw_images (Voting.im app) (id l) (id r) now)
      as Himgs.
    destruct (record_match_state (Voting.im app) (id l) (id r) 0.5 now)
      as [[Hin Hl]|(Ha & Hb & ? & ? & ? & ? & ? & ? & ? & _ & _ & _ & Hl)];
    destruct (record_match_state (Voting.im app) (id r) (id l) 0.5 now)
      as [[Hin' Hr]|(Ha' & Hb' & ? & ? & ? & ? & ? & ? & ? & _ & _ & _ & Hr)];
      rewrite Hl, Hr in *; cbn [fst snd Voting.im Voting.set_im] in *;
      rewrite ?im_ui_next_pair; cbn [Voting.im Voting.set_im];
      try done.
    + exfalso. rewrite Ha', Hb' in Hin. done.
    + exfalso. rewrite Ha, Hb in Hin'. done.
  - unfold Voting._vote_side, mbind, Py_bind, gets. by rewrite Hpair.
Qed.
